(** * ORM framework: connection pool, query cache, query builder, database
      facade and active-record model (orm_framework.py)

    A shallow embedding of [src/codes/orm_framework.py].  Python objects that
    are mutated in place become explicit state: every method takes the object
    and returns the updated object (and, where the method can raise, a
    [result]).  Python dictionaries are insertion-ordered association lists,
    because both the iteration order ([min] over the timestamps, the column
    order in generated SQL) and the key set matter. *)

From Stdlib Require Import ZArith List String Ascii Bool Lia DecimalString.
Import ListNotations.
Local Open Scope string_scope.
Local Open Scope Z_scope.

Local Set Warnings "-register-all".

(** ** Python values *)

(** The values that flow through the framework as [Any]: bound parameters,
    model attributes, cached results. *)
Inductive pyval : Type :=
| PNone
| PBool (b : bool)
| PInt (z : Z)
| PStr (s : string)
| PList (l : list pyval)
| PDict (d : list (string * pyval)).

(** Python truthiness, as tested by [if x:]. *)
Definition truthy (v : pyval) : bool :=
  match v with
  | PNone => false
  | PBool b => b
  | PInt z => negb (z =? 0)
  | PStr s => negb (s =? "")%string
  | PList l => match l with [] => false | _ :: _ => true end
  | PDict d => match d with [] => false | _ :: _ => true end
  end.

(** Exceptions raised on the paths modelled here. *)
Inductive exn : Type :=
| KeyError
| ValueError
| TypeError
| ProgrammingError
| OperationalError (msg : string).

(** The outcome of a call that may raise. *)
Inductive result (A : Type) : Type :=
| Ok (a : A)
| Raise (e : exn).
Arguments Ok {A} a.
Arguments Raise {A} e.

(** ** Strings *)

(** [sep.join(parts)] *)
Fixpoint str_join (sep : string) (parts : list string) : string :=
  match parts with
  | [] => ""
  | [p] => p
  | p :: rest => p ++ sep ++ str_join sep rest
  end.

(** [str(n)] for an [int], as interpolated by an f-string. *)
Definition str_of_int (n : Z) : string := NilZero.string_of_int (Z.to_int n).

(** [s.startswith('_')] *)
Definition startswith_underscore (s : string) : bool :=
  match s with
  | String c _ => Ascii.eqb c "_"%char
  | EmptyString => false
  end.

(** ** Dictionaries *)

(** A [dict] with [str] keys: an association list in insertion order, at most
    one binding per key. *)
Definition dict (V : Type) : Type := list (string * V).

Section Dict.
Context {V : Type}.

(** [d.get(k)] / [d[k]] ([None] stands for a missing key) *)
Fixpoint dict_get (k : string) (d : dict V) : option V :=
  match d with
  | [] => None
  | (k', v) :: rest => if (k =? k')%string then Some v else dict_get k rest
  end.

(** [k in d] *)
Definition dict_mem (k : string) (d : dict V) : bool :=
  match dict_get k d with Some _ => true | None => false end.

(** [d[k] = v]: an existing key keeps its position, a new key goes last. *)
Fixpoint dict_set (k : string) (v : V) (d : dict V) : dict V :=
  match d with
  | [] => [(k, v)]
  | (k', v') :: rest =>
      if (k =? k')%string then (k', v) :: rest else (k', v') :: dict_set k v rest
  end.

(** [del d[k]] on a key that is present (a missing key is left to the
    caller, which raises [KeyError]). *)
Fixpoint dict_del (k : string) (d : dict V) : dict V :=
  match d with
  | [] => []
  | (k', v') :: rest =>
      if (k =? k')%string then rest else (k', v') :: dict_del k rest
  end.

Definition dict_keys (d : dict V) : list string := map fst d.
Definition dict_values (d : dict V) : list V := map snd d.
End Dict.

(** ** Query builder *)

Module QueryBuilder.

Record t : Type := mk {
  table : string;
  select_fields : list string;
  where_clauses : list string;
  where_values : list pyval;
  joins : list string;
  order_by_clause : option string;
  limit_value : option Z;
  offset_value : option Z
}.

(** [QueryBuilder(table)] *)
Definition init (tbl : string) : t :=
  mk tbl ["*"] [] [] [] None None None.

Definition select (fields : list string) (qb : t) : t :=
  mk (table qb) fields (where_clauses qb) (where_values qb) (joins qb)
     (order_by_clause qb) (limit_value qb) (offset_value qb).

Definition where_ (condition : string) (values : list pyval) (qb : t) : t :=
  mk (table qb) (select_fields qb) (where_clauses qb ++ [condition])
     (where_values qb ++ values) (joins qb)
     (order_by_clause qb) (limit_value qb) (offset_value qb).

Definition join (other_table on : string) (qb : t) : t :=
  mk (table qb) (select_fields qb) (where_clauses qb) (where_values qb)
     (joins qb ++ ["JOIN " ++ other_table ++ " ON " ++ on])
     (order_by_clause qb) (limit_value qb) (offset_value qb).

Definition left_join (other_table on : string) (qb : t) : t :=
  mk (table qb) (select_fields qb) (where_clauses qb) (where_values qb)
     (joins qb ++ ["LEFT JOIN " ++ other_table ++ " ON " ++ on])
     (order_by_clause qb) (limit_value qb) (offset_value qb).

(** [order_by(field, direction)]; the default direction is ["ASC"]. *)
Definition order_by (field direction : string) (qb : t) : t :=
  mk (table qb) (select_fields qb) (where_clauses qb) (where_values qb)
     (joins qb) (Some ("ORDER BY " ++ field ++ " " ++ direction))
     (limit_value qb) (offset_value qb).

Definition limit (n : Z) (qb : t) : t :=
  mk (table qb) (select_fields qb) (where_clauses qb) (where_values qb)
     (joins qb) (order_by_clause qb) (Some n) (offset_value qb).

Definition offset (n : Z) (qb : t) : t :=
  mk (table qb) (select_fields qb) (where_clauses qb) (where_values qb)
     (joins qb) (order_by_clause qb) (limit_value qb) (Some n).

(** [if self.joins:] / [if self.where_clauses:] *)
Definition nonempty {A : Type} (l : list A) : bool :=
  match l with [] => false | _ :: _ => true end.

(** [build()] returns the SQL text and the tuple of bound values.  The
    tests [if self.order_by_clause:], [if self.limit_value:] and
    [if self.offset_value:] are truthiness tests: [None], the empty string
    and [0] all fail them. *)
Definition build (qb : t) : string * list pyval :=
  let sql := "SELECT " ++ str_join ", " (select_fields qb)
               ++ " FROM " ++ table qb in
  let sql := if nonempty (joins qb)
             then sql ++ " " ++ str_join " " (joins qb) else sql in
  let sql := if nonempty (where_clauses qb)
             then sql ++ " WHERE " ++ str_join " AND " (where_clauses qb)
             else sql in
  let sql := match order_by_clause qb with
             | Some s => if negb (s =? "")%string then sql ++ " " ++ s else sql
             | None => sql
             end in
  let sql := match limit_value qb with
             | Some n => if negb (n =? 0)
                         then sql ++ " LIMIT " ++ str_of_int n else sql
             | None => sql
             end in
  let sql := match offset_value qb with
             | Some n => if negb (n =? 0)
                         then sql ++ " OFFSET " ++ str_of_int n else sql
             | None => sql
             end in
  (sql, where_values qb).

(** One fluent call on a builder. *)
Inductive call : Type :=
| Select (fields : list string)
| Where (condition : string) (values : list pyval)
| Join (other_table on : string)
| LeftJoin (other_table on : string)
| OrderBy (field direction : string)
| Limit (n : Z)
| Offset (n : Z).

Definition apply (qb : t) (c : call) : t :=
  match c with
  | Select fs => select fs qb
  | Where cond vs => where_ cond vs qb
  | Join tb on => join tb on qb
  | LeftJoin tb on => left_join tb on qb
  | OrderBy f d => order_by f d qb
  | Limit n => limit n qb
  | Offset n => offset n qb
  end.

(** A chain of fluent calls, applied left to right. *)
Definition chain (cs : list call) (qb : t) : t := fold_left apply cs qb.

End QueryBuilder.

(** ** Time *)

(** A [datetime] is a count of microseconds; a difference of two of them is a
    [timedelta], which Python keeps normalised as days, seconds (0..86399)
    and microseconds (0..999999). *)
Definition datetime : Type := Z.

Definition us_per_second : Z := 1000000.
Definition us_per_day : Z := 86400 * us_per_second.

(** [(a - b).seconds]: the seconds field of the normalised difference. *)
Definition timedelta_seconds (a b : datetime) : Z :=
  ((a - b) mod us_per_day) / us_per_second.

(** [(a - b).days] *)
Definition timedelta_days (a b : datetime) : Z := (a - b) / us_per_day.

(** ** Query cache *)

Module QueryCache.

Record t : Type := mk {
  cache : dict pyval;
  max_size : Z;
  ttl : Z;
  timestamps : dict datetime
}.

(** [QueryCache(max_size, ttl)]; the defaults are 1000 and 3600. *)
Definition init (max_size ttl : Z) : t := mk [] max_size ttl [].

(** [get(key)], with [now] the reading of [datetime.now()]. *)
Definition get (key : string) (now : datetime) (c : t) : t * result pyval :=
  match dict_get key (cache c) with
  | None => (c, Ok PNone)
  | Some v =>
      match dict_get key (timestamps c) with
      | None => (c, Raise KeyError)
      | Some ts =>
          if timedelta_seconds now ts >? ttl c
          then (mk (dict_del key (cache c)) (max_size c) (ttl c)
                   (dict_del key (timestamps c)), Ok PNone)
          else (c, Ok v)
      end
  end.

(** The scan of [min(d, key=d.get)]: [best] is the smallest seen so far
    and is replaced only by a strictly smaller value. *)
Fixpoint min_scan (best : string * datetime) (d : dict datetime)
  : string * datetime :=
  match d with
  | [] => best
  | (k, ts) :: rest =>
      if ts <? snd best then min_scan (k, ts) rest else min_scan best rest
  end.

(** [min(d, key=d.get)]; [None] on an empty dictionary, where [min]
    raises [ValueError]. *)
Definition min_key (d : dict datetime) : option (string * datetime) :=
  match d with
  | [] => None
  | kv :: rest => Some (min_scan kv rest)
  end.

(** [set(key, value)], with [now] the reading of [datetime.now()]. *)
Definition set (key : string) (value : pyval) (now : datetime) (c : t)
  : t * result unit :=
  let insert c1 :=
    (mk (dict_set key value (cache c1)) (max_size c1) (ttl c1)
        (dict_set key now (timestamps c1)), Ok tt) in
  if Z.of_nat (List.length (cache c)) >=? max_size c then
    match min_key (timestamps c) with
    | None => (c, Raise ValueError)
    | Some (oldest_key, _) =>
        if dict_mem oldest_key (cache c)
        then insert (mk (dict_del oldest_key (cache c)) (max_size c) (ttl c)
                        (dict_del oldest_key (timestamps c)))
        else (c, Raise KeyError)
    end
  else insert c.

Definition clear (c : t) : t := mk [] (max_size c) (ttl c) [].

(** The two dictionaries of a cache hold the same keys in the same order,
    each once: the shape every cache built by [init], [get], [set] and
    [clear] has. *)
Definition wf (c : t) : Prop :=
  dict_keys (cache c) = dict_keys (timestamps c)
  /\ NoDup (dict_keys (cache c)).

End QueryCache.

(** ** Connections and the pool *)

(** A connection handle of the [sqlite3] module. *)
Record Conn : Type := mkConn {
  conn_id : nat;
  row_factory : bool    (* [conn.row_factory = sqlite3.Row] was set *)
}.

(** What the process knows about its connection handles: the next fresh
    handle and the handles closed so far. *)
Record Handles : Type := mkHandles {
  next_conn : nat;
  closed : list nat
}.

(** [sqlite3.connect(database)]: a fresh handle.  Opening is taken to
    succeed. *)
Definition sqlite3_connect (h : Handles) : Handles * Conn :=
  (mkHandles (S (next_conn h)) (closed h), mkConn (next_conn h) false).

(** [conn.close()] *)
Definition conn_close (c : Conn) (h : Handles) : Handles :=
  mkHandles (next_conn h) (conn_id c :: closed h).

Definition is_closed (c : Conn) (h : Handles) : bool :=
  existsb (Nat.eqb (conn_id c)) (closed h).

(** [l.pop()]: the last element and the list without it. *)
Fixpoint list_pop {A : Type} (l : list A) : option (list A * A) :=
  match l with
  | [] => None
  | x :: rest =>
      match list_pop rest with
      | None => Some ([], x)
      | Some (rest', y) => Some (x :: rest', y)
      end
  end.

Module ConnectionPool.

Record t : Type := mk {
  database : string;
  pool_size : Z;
  connections : list Conn
}.

(** The number of idle connections, [len(self.connections)]. *)
Definition idle (p : t) : Z := Z.of_nat (List.length (connections p)).

(** The loop of [_initialize_pool], [n] iterations left. *)
Fixpoint initialize_pool (n : nat) (h : Handles) (p : t) : Handles * t :=
  match n with
  | O => (h, p)
  | S n' =>
      let (h1, conn) := sqlite3_connect h in
      let conn := mkConn (conn_id conn) true in
      initialize_pool n' h1
        (mk (database p) (pool_size p) (connections p ++ [conn]))
  end.

(** [ConnectionPool(database, pool_size)]; [range] of a negative size is
    empty. *)
Definition init (database : string) (pool_size : Z) (h : Handles)
  : Handles * t :=
  initialize_pool (Z.to_nat pool_size) h (mk database pool_size []).

Definition get_connection (h : Handles) (p : t) : Handles * t * Conn :=
  match list_pop (connections p) with
  | Some (rest, conn) => (h, mk (database p) (pool_size p) rest, conn)
  | None => let (h1, conn) := sqlite3_connect h in (h1, p, conn)
  end.

Definition return_connection (conn : Conn) (h : Handles) (p : t)
  : Handles * t :=
  if idle p <? pool_size p
  then (h, mk (database p) (pool_size p) (connections p ++ [conn]))
  else (conn_close conn h, p).

Definition close_all (h : Handles) (p : t) : Handles :=
  fold_left (fun h c => conn_close c h) (connections p) h.

(** One operation of a client on the pool. *)
Inductive op : Type :=
| Acquire
| Release (conn : Conn).

Definition step (s : Handles * t) (o : op) : Handles * t :=
  match o with
  | Acquire => fst (get_connection (fst s) (snd s))
  | Release conn => return_connection conn (fst s) (snd s)
  end.

Definition run (ops : list op) (s : Handles * t) : Handles * t :=
  fold_left step ops s.

End ConnectionPool.

(** ** The sqlite3 backend *)

(** A row as the backend yields it: the column names with their values. *)
Definition RawRow : Type := list (string * pyval).

(** Statement execution and commit of [sqlite3], on a store of type
    [Store]. *)
Class Backend (Store : Type) : Type := {
  (** [cursor.execute(sql, params)]: the store afterwards, and the rows the
      cursor will yield or the [sqlite3] error raised. *)
  cursor_execute : Store -> string -> list pyval -> Store * result (list RawRow);
  (** [conn.commit()] *)
  conn_commit : Store -> Store * result unit
}.

(** Three conversions of the Python runtime that the framework calls. *)
Class Runtime : Type := {
  (** [dict(row)], on a [sqlite3.Row] when the connection has its
      [row_factory] set and on a plain tuple otherwise. *)
  row_to_dict : bool -> RawRow -> result (dict pyval);
  (** [f"{params}"] for a tuple of bound values. *)
  repr_tuple : list pyval -> string;
  (** [f"{col.default}"] *)
  str_of_default : pyval -> string
}.

(** ** Database *)

Record Column : Type := mkColumn {
  col_name : string;
  col_type : string;
  primary_key : bool;
  unique : bool;
  nullable : bool;
  default : pyval;
  index : bool
}.

Module Database.

Record t : Type := mk {
  pool : ConnectionPool.t;
  cache : QueryCache.t;
  tables : dict pyval
}.

(** A [Database] object together with the world it acts on. *)
Record state (Store : Type) : Type := mkState {
  store : Store;
  handles : Handles;
  db : t
}.
Arguments mkState {Store}.
Arguments store {Store}.
Arguments handles {Store}.
Arguments db {Store}.

(** [Database(database)]: a pool of the default size 5 and a cache with the
    defaults 1000 and 3600. *)
Definition init {Store : Type} (database : string) (st : Store) (h : Handles)
  : state Store :=
  let (h1, p) := ConnectionPool.init database 5 h in
  mkState st h1 (mk p (QueryCache.init 1000 3600) []).

(** The handles and the pool of a state: what an acquire or a release can
    change. *)
Definition pool_view {Store : Type} (s : state Store) : Handles * ConnectionPool.t :=
  (handles s, pool (db s)).

(** The connection [get_connection()] hands out in state [s]. *)
Definition acquired {Store : Type} (s : state Store) : Conn :=
  snd (ConnectionPool.get_connection (handles s) (pool (db s))).

(** The handles and the pool after [get_connection()] followed by
    [return_connection()] of the connection obtained. *)
Definition released {Store : Type} (s : state Store) : Handles * ConnectionPool.t :=
  let '(h, p, conn) := ConnectionPool.get_connection (handles s) (pool (db s)) in
  ConnectionPool.return_connection conn h p.

(** The handles and the pool after a read with cache key [key]: untouched
    when [cache.get] answers with a truthy value (or raises), and otherwise
    those after one acquire and release. *)
Definition after_read {Store : Type} (key : string) (t_get : datetime)
           (s : state Store) : Handles * ConnectionPool.t :=
  match QueryCache.get key t_get (cache (db s)) with
  | (_, Ok v) => if truthy v then pool_view s else released s
  | (_, Raise _) => pool_view s
  end.

(** The shape of the cache of a [Database] that is used through its
    methods: well formed, of positive capacity, holding truthy values
    only. *)
Definition cache_ok (c : QueryCache.t) : Prop :=
  QueryCache.wf c
  /\ 1 <= QueryCache.max_size c
  /\ Forall (fun kv => truthy (snd kv) = true) (QueryCache.cache c).

Section Methods.
Context {R : Runtime} {Store : Type} {B : Backend Store}.

(** A method: it updates the state and returns or raises. *)
Definition M (A : Type) : Type := state Store -> state Store * result A.

Definition ret {A : Type} (a : A) : M A := fun s => (s, Ok a).

Definition bind {A C : Type} (m : M A) (k : A -> M C) : M C :=
  fun s => match m s with
           | (s1, Ok a) => k a s1
           | (s1, Raise e) => (s1, Raise e)
           end.

(** [try: body finally: handler]: the handler runs on both outcomes of
    the body; if the handler raises, that exception wins. *)
Definition try_finally {A : Type} (body : M A) (handler : M unit) : M A :=
  fun s => let (s1, r) := body s in
           match handler s1 with
           | (s2, Ok _) => (s2, r)
           | (s2, Raise e) => (s2, Raise e)
           end.

Definition lift {A : Type} (r : result A) : M A := fun s => (s, r).

Definition with_cache (c : QueryCache.t) (s : state Store) : state Store :=
  mkState (store s) (handles s) (mk (pool (db s)) c (tables (db s))).

(** [self.pool.get_connection()] *)
Definition get_connection : M Conn :=
  fun s => let '(h, p, conn) :=
             ConnectionPool.get_connection (handles s) (pool (db s)) in
           (mkState (store s) h (mk p (cache (db s)) (tables (db s))),
            Ok conn).

(** [self.pool.return_connection(conn)] *)
Definition return_connection (conn : Conn) : M unit :=
  fun s => let (h, p) :=
             ConnectionPool.return_connection conn (handles s) (pool (db s)) in
           (mkState (store s) h (mk p (cache (db s)) (tables (db s))),
            Ok tt).

(** [cursor = conn.cursor(); cursor.execute(sql, params)]; a closed
    connection refuses to hand out a cursor. *)
Definition conn_execute (conn : Conn) (sql : string) (params : list pyval)
  : M (list RawRow) :=
  fun s => if is_closed conn (handles s) then (s, Raise ProgrammingError)
           else let (st, r) := cursor_execute (store s) sql params in
                (mkState st (handles s) (db s), r).

(** [conn.commit()] *)
Definition commit (conn : Conn) : M unit :=
  fun s => if is_closed conn (handles s) then (s, Raise ProgrammingError)
           else let (st, r) := conn_commit (store s) in
                (mkState st (handles s) (db s), r).

Definition cache_get (key : string) (now : datetime) : M pyval :=
  fun s => let (c, r) := QueryCache.get key now (cache (db s)) in
           (with_cache c s, r).

Definition cache_set (key : string) (value : pyval) (now : datetime)
  : M unit :=
  fun s => let (c, r) := QueryCache.set key value now (cache (db s)) in
           (with_cache c s, r).

Definition cache_clear : M unit :=
  fun s => (with_cache (QueryCache.clear (cache (db s))) s, Ok tt).

(** [execute(sql, params)]; the cursor it returns is modelled by the rows
    it holds. *)
Definition execute (sql : string) (params : list pyval) : M (list RawRow) :=
  bind get_connection (fun conn =>
    try_finally
      (bind (conn_execute conn sql params) (fun cursor =>
       bind (commit conn) (fun _ =>
       ret cursor)))
      (return_connection conn)).

(** [f"{sql}:{params}"] *)
Definition cache_key (sql : string) (params : list pyval) : string :=
  sql ++ ":" ++ repr_tuple params.

(** [dict(row) if row else None] on the result of [cursor.fetchone()] *)
Definition one_result (conn : Conn) (row : option RawRow) : result pyval :=
  match row with
  | Some (cell :: cells) =>
      match row_to_dict (row_factory conn) (cell :: cells) with
      | Ok d => Ok (PDict d)
      | Raise e => Raise e
      end
  | Some [] | None => Ok PNone
  end.

(** [[dict(row) for row in rows]] *)
Fixpoint all_results (conn : Conn) (rows : list RawRow)
  : result (list pyval) :=
  match rows with
  | [] => Ok []
  | row :: rest =>
      match row_to_dict (row_factory conn) row with
      | Raise e => Raise e
      | Ok d => match all_results conn rest with
                | Ok ds => Ok (PDict d :: ds)
                | Raise e => Raise e
                end
      end
  end.

(** [fetch_one(sql, params)]; [t_get] and [t_set] are the readings of
    [datetime.now()] inside [cache.get] and [cache.set]. *)
Definition fetch_one (sql : string) (params : list pyval)
           (t_get t_set : datetime) : M pyval :=
  let key := cache_key sql params in
  bind (cache_get key t_get) (fun cached =>
    if truthy cached then ret cached else
    bind get_connection (fun conn =>
      try_finally
        (bind (conn_execute conn sql params) (fun cursor =>
         bind (lift (one_result conn (hd_error cursor))) (fun res =>
         bind (if truthy res then cache_set key res t_set else ret tt)
              (fun _ =>
         ret res))))
        (return_connection conn))).

(** [fetch_all(sql, params)] *)
Definition fetch_all (sql : string) (params : list pyval)
           (t_get t_set : datetime) : M pyval :=
  let key := cache_key sql params in
  bind (cache_get key t_get) (fun cached =>
    if truthy cached then ret cached else
    bind get_connection (fun conn =>
      try_finally
        (bind (conn_execute conn sql params) (fun rows =>
         bind (lift (all_results conn rows)) (fun results =>
         bind (if truthy (PList results)
               then cache_set key (PList results) t_set else ret tt)
              (fun _ =>
         ret (PList results)))))
        (return_connection conn))).

(** The definition of one column inside [create_table]. *)
Definition col_def (col : Column) : string :=
  let d := col_name col ++ " " ++ col_type col in
  let d := if primary_key col then d ++ " PRIMARY KEY AUTOINCREMENT" else d in
  let d := if negb (nullable col) then d ++ " NOT NULL" else d in
  let d := if unique col then d ++ " UNIQUE" else d in
  match default col with
  | PNone => d
  | v => d ++ " DEFAULT " ++ str_of_default v
  end.

(** The statement [create_table] builds. *)
Definition create_table_sql (table_name : string) (columns : list Column)
  : string :=
  "CREATE TABLE IF NOT EXISTS " ++ table_name ++ " ("
    ++ str_join ", " (map col_def columns) ++ ")".

Definition create_table (table_name : string) (columns : list Column)
  : M unit :=
  let sql := create_table_sql table_name columns in
  bind (execute sql []) (fun _ => cache_clear).

(** [close()] *)
Definition close : M unit :=
  fun s => (mkState (store s)
                    (ConnectionPool.close_all (handles s) (pool (db s)))
                    (db s), Ok tt).
End Methods.

End Database.

(** ** Model *)

Module Model.
Import Database.

(** An instance of a [Model] subclass: the class's [__tablename__] and the
    instance's [__dict__].  The class declares no attribute [id] of its
    own, so [hasattr(self, 'id')] asks whether [__dict__] has the key. *)
Record t : Type := mk {
  tablename : string;
  attributes : dict pyval
}.

(** [{k: v for k, v in self.__dict__.items() if not k.startswith('_')}] *)
Definition public_attrs (m : t) : dict pyval :=
  filter (fun kv => negb (startswith_underscore (fst kv))) (attributes m).

Definition not_id (kv : string * pyval) : bool := negb (fst kv =? "id")%string.

(** The statement and the bound values [save()] hands to [execute]. *)
Definition save_statement (m : t) : string * list pyval :=
  let attrs := public_attrs m in
  match dict_get "id" (attributes m) with
  | Some id =>
      if truthy id then
        let set_clause :=
          str_join ", " (map (fun k => k ++ " = ?")
                             (filter (fun k => negb (k =? "id")%string)
                                     (dict_keys attrs))) in
        let values := (map snd (filter not_id attrs) ++ [id])%list in
        ("UPDATE " ++ tablename m ++ " SET " ++ set_clause ++ " WHERE id = ?",
         values)
      else
        ("INSERT INTO " ++ tablename m ++ " ("
           ++ str_join ", " (dict_keys attrs) ++ ") VALUES ("
           ++ str_join ", " (map (fun _ => "?") attrs) ++ ")",
         dict_values attrs)
  | None =>
      ("INSERT INTO " ++ tablename m ++ " ("
         ++ str_join ", " (dict_keys attrs) ++ ") VALUES ("
         ++ str_join ", " (map (fun _ => "?") attrs) ++ ")",
       dict_values attrs)
  end.

Section Methods.
Context {R : Runtime} {Store : Type} {B : Backend Store}.

(** [save()] *)
Definition save (m : t) : M bool :=
  let (sql, values) := save_statement m in
  bind (execute sql values) (fun _ =>
  bind cache_clear (fun _ =>
  ret true)).

(** [delete()] *)
Definition delete (m : t) : M bool :=
  match dict_get "id" (attributes m) with
  | None => ret false
  | Some id =>
      bind (execute ("DELETE FROM " ++ tablename m ++ " WHERE id = ?") [id])
           (fun _ =>
      bind cache_clear (fun _ =>
      ret true))
  end.
End Methods.

End Model.

(** ** A scripted backend *)

(** A backend for running the methods on concrete inputs: the store is the
    log of the statements executed, and [answer] says what each statement
    yields. *)
Definition scripted (answer : string -> result (list RawRow))
  : Backend (list (string * list pyval)) :=
  {| cursor_execute := fun log sql params => ((log ++ [(sql, params)])%list, answer sql);
     conn_commit := fun log => (log, Ok tt) |}.

(** How a bound value prints inside a tuple, for numbers, [None], booleans
    and strings without quotes or escapes. *)
Definition plain_repr (v : pyval) : string :=
  match v with
  | PInt z => str_of_int z
  | PStr x => "'" ++ x ++ "'"
  | PNone => "None"
  | PBool true => "True"
  | PBool false => "False"
  | PList _ => "[...]"
  | PDict _ => "{...}"
  end.

(** A runtime for the same purpose: a [sqlite3.Row] converts to its cells, a
    plain tuple does not convert, and a tuple prints with its values
    separated by commas (a single value is followed by one). *)
Definition plain_runtime : Runtime :=
  {| row_to_dict := fun is_row row => if is_row then Ok row else Raise TypeError;
     repr_tuple := fun params =>
       match params with
       | [v] => "(" ++ plain_repr v ++ ",)"
       | _ => "(" ++ str_join ", " (map plain_repr params) ++ ")"
       end;
     str_of_default := fun v => match v with
                                | PStr x => x
                                | _ => plain_repr v
                                end |}.

(** A fresh database with one read already cached. *)
Definition one_cached : Database.state (list (string * list pyval)) :=
  Database.with_cache
    (QueryCache.mk [("SELECT * FROM users:()", PList [PDict [("id", PInt 1)]])]
                   1000 3600 [("SELECT * FROM users:()", 0)])
    (Database.init "deepcode.db" [] (mkHandles 0 [])).

(** ** The shape of a built query, read off the chain of calls *)

Module BuildShape.
Import QueryBuilder.

(** The last call, if any, for which [f] answers. *)
Fixpoint last_some {A : Type} (f : call -> option A) (cs : list call)
  : option A :=
  match cs with
  | [] => None
  | c :: rest =>
      match last_some f rest with
      | Some a => Some a
      | None => f c
      end
  end.

(** The [where()] calls of a chain, in call order: each predicate fragment
    with the values passed along with it. *)
Fixpoint where_calls (cs : list call) : list (string * list pyval) :=
  match cs with
  | [] => []
  | Where cond vs :: rest => (cond, vs) :: where_calls rest
  | _ :: rest => where_calls rest
  end.

(** The join fragments of a chain, in call order. *)
Fixpoint join_fragments (cs : list call) : list string :=
  match cs with
  | [] => []
  | Join tb on :: rest => ("JOIN " ++ tb ++ " ON " ++ on) :: join_fragments rest
  | LeftJoin tb on :: rest =>
      ("LEFT JOIN " ++ tb ++ " ON " ++ on) :: join_fragments rest
  | _ :: rest => join_fragments rest
  end.

Definition projection (cs : list call) : list string :=
  match last_some (fun c => match c with Select fs => Some fs | _ => None end) cs with
  | Some fs => fs
  | None => ["*"]
  end.

Definition joins_part (cs : list call) : string :=
  match join_fragments cs with
  | [] => ""
  | js => " " ++ str_join " " js
  end.

Definition where_part (cs : list call) : string :=
  match where_calls cs with
  | [] => ""
  | ws => " WHERE " ++ str_join " AND " (map fst ws)
  end.

Definition order_part (cs : list call) : string :=
  match last_some (fun c => match c with
                            | OrderBy f d => Some (f, d)
                            | _ => None
                            end) cs with
  | Some (f, d) => " ORDER BY " ++ f ++ " " ++ d
  | None => ""
  end.

(** The optional [LIMIT n] / [OFFSET n]: present when the last setting is
    a number other than 0. *)
Definition count_part (keyword : string) (o : option Z) : string :=
  match o with
  | Some n => if n =? 0 then "" else " " ++ keyword ++ " " ++ str_of_int n
  | None => ""
  end.

Definition limit_part (cs : list call) : string :=
  count_part "LIMIT"
    (last_some (fun c => match c with Limit n => Some n | _ => None end) cs).

Definition offset_part (cs : list call) : string :=
  count_part "OFFSET"
    (last_some (fun c => match c with Offset n => Some n | _ => None end) cs).

(** The bound values: those of each [where()] call, concatenated in call
    order. *)
Definition bound_values (cs : list call) : list pyval :=
  List.concat (map snd (where_calls cs)).

End BuildShape.

(** ** Runs of a query cache *)

Module CacheRun.

(** One call on a cache, with the reading of [datetime.now()] it makes. *)
Inductive op : Type :=
| OpGet (key : string) (now : datetime)
| OpSet (key : string) (value : pyval) (now : datetime)
| OpClear.

(** The cache after the call, whether the call returned or raised. *)
Definition step (c : QueryCache.t) (o : op) : QueryCache.t :=
  match o with
  | OpGet key now => fst (QueryCache.get key now c)
  | OpSet key value now => fst (QueryCache.set key value now c)
  | OpClear => QueryCache.clear c
  end.

Definition run (ops : list op) (c : QueryCache.t) : QueryCache.t :=
  fold_left step ops c.

(** [len(self.cache)] *)
Definition size (c : QueryCache.t) : Z :=
  Z.of_nat (List.length (QueryCache.cache c)).

End CacheRun.

(** ** Clients of a connection pool *)

Module PoolClients.
Import ConnectionPool.

(** The connections handed out by [n] calls of [get_connection()] in a row,
    none of them released in between. *)
Fixpoint acquire_many (n : nat) (h : Handles) (p : t) : list Conn :=
  match n with
  | O => []
  | S n' =>
      let '(h1, p1, conn) := get_connection h p in
      conn :: acquire_many n' h1 p1
  end.

(** The idle connections have different handles, all of them issued
    already. *)
Definition distinct (h : Handles) (p : t) : Prop :=
  NoDup (map conn_id (connections p))
  /\ Forall (fun c => (conn_id c < next_conn h)%nat) (connections p).

End PoolClients.

(** ** Placeholders and kinds of builder calls *)

Module BuilderCalls.
Import QueryBuilder.

(** The number of positional placeholders [?] in a piece of SQL text. *)
Fixpoint placeholders (s : string) : nat :=
  match s with
  | EmptyString => O
  | String c rest =>
      ((if Ascii.eqb c "?"%char then 1 else 0) + placeholders rest)%nat
  end.

(** A call that passes as many values as its text has placeholders: a
    [where()] with one value per placeholder of its fragment, any other
    call with text free of placeholders. *)
Definition balanced (c : call) : Prop :=
  match c with
  | Where cond vs => placeholders cond = List.length vs
  | Select fs => Forall (fun f => placeholders f = O) fs
  | Join tb on | LeftJoin tb on => placeholders tb = O /\ placeholders on = O
  | OrderBy f d => placeholders f = O /\ placeholders d = O
  | Limit _ | Offset _ => True
  end.

(** Which part of the builder a call writes to. *)
Inductive part : Type :=
| Projection | Predicates | Joins | Ordering | RowLimit | RowOffset.

Definition part_of (c : call) : part :=
  match c with
  | Select _ => Projection
  | Where _ _ => Predicates
  | Join _ _ | LeftJoin _ _ => Joins
  | OrderBy _ _ => Ordering
  | Limit _ => RowLimit
  | Offset _ => RowOffset
  end.

(** A builder whose text, apart from the predicates, is free of
    placeholders and whose predicates have one value per placeholder. *)
Definition aligned (qb : t) : Prop :=
  placeholders (table qb) = O
  /\ Forall (fun f => placeholders f = O) (select_fields qb)
  /\ Forall (fun f => placeholders f = O) (joins qb)
  /\ (forall s, order_by_clause qb = Some s -> placeholders s = O)
  /\ list_sum (map placeholders (where_clauses qb)) = List.length (where_values qb).

End BuilderCalls.

(** ** Sessions on a database *)

Module Session.
Import Database.

(** [to_dict()] of a model instance *)
Definition to_dict (m : Model.t) : dict pyval := Model.public_attrs m.

(** One call of a method of [Database] or of a model bound to it, with the
    clock readings it makes. *)
Inductive call : Type :=
| Execute (sql : string) (params : list pyval)
| FetchOne (sql : string) (params : list pyval) (t_get t_set : datetime)
| FetchAll (sql : string) (params : list pyval) (t_get t_set : datetime)
| CreateTable (table_name : string) (columns : list Column)
| Save (m : Model.t)
| Delete (m : Model.t).

Section Runs.
Context {R : Runtime} {Store : Type} {B : Backend Store}.

(** The state after the call, whether it returned or raised. *)
Definition step (s : state Store) (c : call) : state Store :=
  match c with
  | Execute sql params => fst (execute sql params s)
  | FetchOne sql params t_get t_set => fst (fetch_one sql params t_get t_set s)
  | FetchAll sql params t_get t_set => fst (fetch_all sql params t_get t_set s)
  | CreateTable table_name columns => fst (create_table table_name columns s)
  | Save m => fst (Model.save m s)
  | Delete m => fst (Model.delete m s)
  end.

Definition run (cs : list call) (s : state Store) : state Store :=
  fold_left step cs s.
End Runs.

End Session.

(** ** The class methods of a model, up to the rows they fetch *)

Module Finders.
Import Database.

(** [cls.query()] *)
Definition query (tablename : string) : QueryBuilder.t :=
  QueryBuilder.init tablename.

Section Methods.
Context {R : Runtime} {Store : Type} {B : Backend Store}.

(** [all()] up to [rows = cls.__db__.fetch_all(sql, params)] *)
Definition all_rows (tablename : string) (t_get t_set : datetime) : M pyval :=
  let qb := query tablename in
  let (sql, params) := QueryBuilder.build qb in
  fetch_all sql params t_get t_set.

(** [first(condition, *values)] up to the row it fetches; [condition] is
    [None] by default, and [if condition:] lets neither [None] nor the
    empty string through. *)
Definition first_row (tablename : string) (condition : option string)
           (values : list pyval) (t_get t_set : datetime) : M pyval :=
  let qb := query tablename in
  let qb := match condition with
            | Some c => if negb (c =? "")%string
                        then QueryBuilder.where_ c values qb else qb
            | None => qb
            end in
  let (sql, params) := QueryBuilder.build qb in
  fetch_one sql params t_get t_set.
End Methods.

End Finders.

(** * Properties *)

(** ** Strings and dictionaries *)

Lemma str_app_assoc (a b c : string) : ((a ++ b) ++ c = a ++ (b ++ c))%string.
Proof.
  induction a as [|ch a IH]; simpl; [reflexivity | now rewrite IH].
Qed.

Lemma str_app_empty_r (a : string) : (a ++ "" = a)%string.
Proof.
  induction a as [|ch a IH]; simpl; [reflexivity | now rewrite IH].
Qed.

(** ** Query builder *)

Module QueryBuilderFacts.
Import QueryBuilder BuildShape.

(** The state of the builder after a chain of calls, field by field. *)
Lemma chain_fields (cs : list call) : forall qb,
  table (chain cs qb) = table qb
  /\ select_fields (chain cs qb) =
       match last_some (fun c => match c with Select fs => Some fs | _ => None end) cs with
       | Some fs => fs
       | None => select_fields qb
       end
  /\ where_clauses (chain cs qb) = (where_clauses qb ++ map fst (where_calls cs))%list
  /\ where_values (chain cs qb) = (where_values qb ++ bound_values cs)%list
  /\ joins (chain cs qb) = (joins qb ++ join_fragments cs)%list
  /\ order_by_clause (chain cs qb) =
       match last_some (fun c => match c with
                                 | OrderBy f d => Some (f, d)
                                 | _ => None
                                 end) cs with
       | Some (f, d) => Some ("ORDER BY " ++ f ++ " " ++ d)
       | None => order_by_clause qb
       end
  /\ limit_value (chain cs qb) =
       match last_some (fun c => match c with Limit n => Some n | _ => None end) cs with
       | Some n => Some n
       | None => limit_value qb
       end
  /\ offset_value (chain cs qb) =
       match last_some (fun c => match c with Offset n => Some n | _ => None end) cs with
       | Some n => Some n
       | None => offset_value qb
       end.
Proof.
  induction cs as [|c cs IH]; intro qb.
  - unfold bound_values; simpl. rewrite !app_nil_r. repeat split.
  - unfold chain in *. simpl fold_left.
    destruct (IH (apply qb c)) as (Ht & Hs & Hw & Hv & Hj & Ho & Hl & Hf).
    rewrite Ht, Hs, Hw, Hv, Hj, Ho, Hl, Hf. clear.
    unfold bound_values.
    destruct c; simpl;
      repeat match goal with
             | |- context [last_some ?f cs] => destruct (last_some f cs)
             | |- context [let (_, _) := ?p in _] => destruct p
             end;
      rewrite <- ?app_assoc; simpl; repeat split.
Qed.

Ltac norm_strings :=
  repeat (rewrite ?str_app_assoc, ?str_app_empty_r; simpl).

(** C3.  After any chain of fluent calls on a fresh builder for table
    [tbl], [build()] returns the text
    SELECT <fields> FROM <tbl> [<joins>] [WHERE <predicates AND-joined>]
    [ORDER BY ...] [LIMIT n] [OFFSET n]
    and, as bound values, the values of the [where()] calls concatenated in
    call order, which is the order of their predicates in the text.  On
    table t, where("a = ?", 1), where("b = ?", 2), limit(5) builds
    SELECT * FROM t WHERE a = ? AND b = ? LIMIT 5 with values (1, 2). *)
Theorem build_chain_shape (tbl : string) (cs : list call) :
  build (chain cs (init tbl)) =
    ("SELECT " ++ str_join ", " (projection cs) ++ " FROM " ++ tbl
       ++ joins_part cs ++ where_part cs ++ order_part cs
       ++ limit_part cs ++ offset_part cs,
     List.concat (map snd (where_calls cs)))
  /\ build (chain [Where "a = ?" [PInt 1]; Where "b = ?" [PInt 2]; Limit 5]
                  (init "t"))
     = ("SELECT * FROM t WHERE a = ? AND b = ? LIMIT 5", [PInt 1; PInt 2]).
Proof.
  split; [| reflexivity].
  destruct (chain_fields cs (init tbl)) as (Ht & Hs & Hw & Hv & Hj & Ho & Hl & Hf).
  unfold build. rewrite Ht, Hs, Hw, Hv, Hj, Ho, Hl, Hf. clear.
  unfold projection, joins_part, where_part, order_part, limit_part,
    offset_part, count_part, bound_values.
  simpl.
  destruct (join_fragments cs) as [|j js];
    destruct (where_calls cs) as [|w ws];
    repeat match goal with
           | |- context [last_some ?f cs] => destruct (last_some f cs)
           | |- context [let (_, _) := ?p in _] => destruct p
           | |- context [?n =? 0] => destruct (n =? 0)
           end;
    simpl; f_equal; norm_strings; reflexivity.
Qed.

(** C2 (the code at the input that breaks it).  [limit(0)] and [offset(0)]
    leave no trace in the text [build()] returns: the builder tests the
    stored number for truthiness, and 0 fails the test like [None]. *)
Theorem build_drops_zero_limit_offset :
  build (limit 0 (init "t")) = ("SELECT * FROM t", [])
  /\ build (offset 0 (init "t")) = ("SELECT * FROM t", [])
  /\ build (offset 0 (limit 0 (init "t"))) = build (init "t")
  /\ build (limit 1 (init "t")) = ("SELECT * FROM t LIMIT 1", []).
Proof. repeat split. Qed.

End QueryBuilderFacts.

(** ** Dictionaries *)

Section DictFacts.
Context {V : Type}.
Implicit Types (d : dict V) (k : string) (v : V).

Lemma dict_get_in_keys k d :
  dict_get k d <> None <-> In k (dict_keys d).
Proof.
  induction d as [|[k' v'] d IH]; simpl.
  - split; [congruence | tauto].
  - destruct (String.eqb_spec k k') as [->|Hne].
    + split; [auto | congruence].
    + rewrite IH. split; [auto | intros [H|H]; [congruence | exact H]].
Qed.

Lemma dict_get_none_keys k d :
  dict_get k d = None <-> ~ In k (dict_keys d).
Proof.
  rewrite <- dict_get_in_keys. destruct (dict_get k d); split; try congruence.
  intros H; exfalso; apply H; congruence.
Qed.

Lemma dict_get_set_same k v d : dict_get k (dict_set k v d) = Some v.
Proof.
  induction d as [|[k' v'] d IH]; simpl.
  - now rewrite String.eqb_refl.
  - destruct (String.eqb_spec k k') as [->|Hne]; simpl.
    + now rewrite String.eqb_refl.
    + destruct (String.eqb_spec k k'); [contradiction | exact IH].
Qed.

Lemma dict_get_set_other k k' v d :
  k' <> k -> dict_get k' (dict_set k v d) = dict_get k' d.
Proof.
  intros Hne. induction d as [|[k0 v0] d IH]; simpl.
  - destruct (String.eqb_spec k' k); [contradiction | reflexivity].
  - destruct (String.eqb_spec k k0) as [->|Hk]; simpl.
    + destruct (String.eqb_spec k' k0); [contradiction | reflexivity].
    + destruct (String.eqb_spec k' k0); [reflexivity | exact IH].
Qed.

Lemma dict_keys_set k v d :
  dict_keys (dict_set k v d) =
    if dict_mem k d then dict_keys d else (dict_keys d ++ [k])%list.
Proof.
  unfold dict_mem. induction d as [|[k0 v0] d IH]; simpl.
  - reflexivity.
  - destruct (String.eqb_spec k k0) as [->|Hk]; simpl.
    + reflexivity.
    + rewrite IH. now destruct (dict_get k d).
Qed.

Lemma dict_length_set k v d :
  List.length (dict_set k v d) =
    if dict_mem k d then List.length d else S (List.length d).
Proof.
  unfold dict_mem. induction d as [|[k0 v0] d IH]; simpl.
  - reflexivity.
  - destruct (String.eqb_spec k k0) as [->|Hk]; simpl.
    + reflexivity.
    + rewrite IH. now destruct (dict_get k d).
Qed.

Lemma dict_get_del_other k k' d :
  k' <> k -> dict_get k' (dict_del k d) = dict_get k' d.
Proof.
  intros Hne. induction d as [|[k0 v0] d IH]; simpl.
  - reflexivity.
  - destruct (String.eqb_spec k k0) as [->|Hk]; simpl.
    + destruct (String.eqb_spec k' k0); [contradiction | reflexivity].
    + destruct (String.eqb_spec k' k0); [reflexivity | exact IH].
Qed.

Lemma dict_get_del_same k d :
  NoDup (dict_keys d) -> dict_get k (dict_del k d) = None.
Proof.
  induction d as [|[k0 v0] d IH]; simpl; intros Hnd.
  - reflexivity.
  - inversion Hnd as [|? ? Hnotin Hnd']; subst.
    destruct (String.eqb_spec k k0) as [->|Hk]; simpl.
    + now apply dict_get_none_keys.
    + destruct (String.eqb_spec k k0); [contradiction | auto].
Qed.

Lemma dict_length_del k d :
  dict_get k d <> None -> S (List.length (dict_del k d)) = List.length d.
Proof.
  induction d as [|[k0 v0] d IH]; simpl.
  - congruence.
  - destruct (String.eqb_spec k k0) as [->|Hk]; simpl; auto.
Qed.

Lemma dict_keys_del_incl k d x :
  In x (dict_keys (dict_del k d)) -> In x (dict_keys d).
Proof.
  induction d as [|[k0 v0] d IH]; simpl; auto.
  destruct (String.eqb k k0); simpl; tauto.
Qed.

Lemma dict_keys_del_nodup k d :
  NoDup (dict_keys d) -> NoDup (dict_keys (dict_del k d)).
Proof.
  induction d as [|[k0 v0] d IH]; simpl; intros Hnd; auto.
  inversion Hnd as [|? ? Hnotin Hnd']; subst.
  destruct (String.eqb k k0); simpl; auto.
  constructor; auto. intros Hin. apply Hnotin. eapply dict_keys_del_incl; eauto.
Qed.

Lemma dict_keys_set_nodup k v d :
  NoDup (dict_keys d) -> NoDup (dict_keys (dict_set k v d)).
Proof.
  intros Hnd. rewrite dict_keys_set. unfold dict_mem.
  destruct (dict_get k d) eqn:E; auto.
  apply dict_get_none_keys in E.
  apply NoDup_app; auto.
  - constructor; [simpl; tauto | constructor].
  - intros x Hx [<-|[]]. contradiction.
Qed.

Lemma dict_get_in k v d : dict_get k d = Some v -> In (k, v) d.
Proof.
  induction d as [|[k0 v0] d IH]; simpl; [discriminate |].
  destruct (String.eqb_spec k k0) as [->|Hk].
  - intros H. injection H as ->. now left.
  - auto.
Qed.

Lemma dict_in_set k v d kv :
  In kv (dict_set k v d) -> kv = (k, v) \/ In kv d.
Proof.
  induction d as [|[k0 v0] d IH]; simpl.
  - intros [<-|[]]. now left.
  - destruct (String.eqb_spec k k0) as [->|Hk]; simpl.
    + intros [<-|H]; auto.
    + intros [<-|H]; auto. destruct (IH H); auto.
Qed.

Lemma dict_in_del k d kv : In kv (dict_del k d) -> In kv d.
Proof.
  induction d as [|[k0 v0] d IH]; simpl; auto.
  destruct (String.eqb k k0); simpl; tauto.
Qed.
End DictFacts.

(** Deleting a key from two dictionaries with the same keys leaves them with
    the same keys; so does setting a key in both. *)
Lemma dict_keys_del_same_keys {V W : Type} (k : string) (d : dict V) (e : dict W) :
  dict_keys d = dict_keys e -> dict_keys (dict_del k d) = dict_keys (dict_del k e).
Proof.
  revert e. induction d as [|[k0 v0] d IH]; intros [|[k1 w1] e]; simpl;
    try discriminate; auto.
  intros H. injection H as -> H.
  destruct (String.eqb k k1); simpl; auto. f_equal; auto.
Qed.

Lemma dict_mem_same_keys {V W : Type} (k : string) (d : dict V) (e : dict W) :
  dict_keys d = dict_keys e -> dict_mem k d = dict_mem k e.
Proof.
  unfold dict_mem. revert e.
  induction d as [|[k0 v0] d IH]; intros [|[k1 w1] e]; simpl;
    try discriminate; auto.
  intros H. injection H as -> H.
  destruct (String.eqb k k1); auto.
Qed.

Lemma dict_keys_set_same_keys {V W : Type} (k : string) (v : V) (w : W)
      (d : dict V) (e : dict W) :
  dict_keys d = dict_keys e ->
  dict_keys (dict_set k v d) = dict_keys (dict_set k w e).
Proof.
  intros H. rewrite !dict_keys_set, (dict_mem_same_keys k d e H), H.
  reflexivity.
Qed.

(** ** Query cache *)

Module QueryCacheFacts.
Import QueryCache.

Lemma init_wf (m l : Z) : wf (init m l).
Proof. split; [reflexivity | constructor]. Qed.

Lemma clear_wf (c : t) : wf (clear c).
Proof. split; [reflexivity | constructor]. Qed.

(** With the same keys in both dictionaries, a cached key has a
    timestamp. *)
Lemma wf_timestamp (c : t) (key : string) (v : pyval) :
  wf c -> dict_get key (cache c) = Some v ->
  exists ts, dict_get key (timestamps c) = Some ts.
Proof.
  intros [Hk _] Hv.
  assert (Hin : In key (dict_keys (timestamps c))).
  { rewrite <- Hk. apply dict_get_in_keys. congruence. }
  apply dict_get_in_keys in Hin.
  destruct (dict_get key (timestamps c)) as [ts|]; [eauto | congruence].
Qed.

Lemma wf_del (c : t) (k : string) :
  wf c ->
  wf (mk (dict_del k (cache c)) (max_size c) (ttl c) (dict_del k (timestamps c))).
Proof.
  intros [Hk Hnd]. split; simpl.
  - now apply dict_keys_del_same_keys.
  - now apply dict_keys_del_nodup.
Qed.

Lemma wf_insert (c : t) (k : string) (v : pyval) (now : datetime) :
  wf c ->
  wf (mk (dict_set k v (cache c)) (max_size c) (ttl c)
         (dict_set k now (timestamps c))).
Proof.
  intros [Hk Hnd]. split; simpl.
  - now apply dict_keys_set_same_keys.
  - now apply dict_keys_set_nodup.
Qed.

Lemma get_wf (key : string) (now : datetime) (c : t) :
  wf c -> wf (fst (get key now c)).
Proof.
  intros Hwf. unfold get.
  destruct (dict_get key (cache c)); [| exact Hwf].
  destruct (dict_get key (timestamps c)); [| exact Hwf].
  destruct (_ >? _); [apply wf_del |]; exact Hwf.
Qed.

Lemma set_wf (key : string) (value : pyval) (now : datetime) (c : t) :
  wf c -> wf (fst (set key value now c)).
Proof.
  intros Hwf. unfold set.
  destruct (_ >=? _).
  - destruct (min_key (timestamps c)) as [[ko to]|]; [| exact Hwf].
    destruct (dict_mem ko (cache c)); [| exact Hwf].
    simpl. apply (wf_insert (mk _ _ _ _)). now apply wf_del.
  - simpl. now apply wf_insert.
Qed.

(** What the scan of [min] returns: the first entry, in iteration order,
    with the smallest timestamp. *)
Lemma min_scan_first_smallest (d : dict datetime) :
  forall best k ts, min_scan best d = (k, ts) ->
    ((k, ts) = best /\ forall kv, In kv d -> ts <= snd kv)
    \/ (exists pre post,
          d = (pre ++ (k, ts) :: post)%list
          /\ ts < snd best
          /\ (forall kv, In kv pre -> ts < snd kv)
          /\ (forall kv, In kv post -> ts <= snd kv)).
Proof.
  induction d as [|[k0 t0] d IH]; intros best k ts; simpl.
  - intros <-. left. split; [reflexivity | tauto].
  - destruct (Z.ltb_spec t0 (snd best)) as [Hlt|Hge]; intros H.
    + right. destruct (IH _ _ _ H) as [[Heq Hall]|(pre & post & -> & Hb & Hpre & Hpost)].
      * injection Heq as -> ->. exists [], d. repeat split; auto.
        intros kv [].
      * simpl in Hb. exists ((k0, t0) :: pre), post. repeat split; auto; [lia |].
        intros kv [<-|Hin]; simpl; auto.
    + destruct (IH _ _ _ H) as [[Heq Hall]|(pre & post & -> & Hb & Hpre & Hpost)].
      * left. split; auto. intros kv [<-|Hin]; auto.
        simpl. subst best. simpl in Hge. exact Hge.
      * right. exists ((k0, t0) :: pre), post. repeat split; auto.
        intros kv [<-|Hin]; simpl; auto. lia.
Qed.

Lemma min_key_first_smallest (d : dict datetime) (k : string) (ts : datetime) :
  min_key d = Some (k, ts) ->
  exists pre post,
    d = (pre ++ (k, ts) :: post)%list
    /\ (forall kv, In kv pre -> ts < snd kv)
    /\ (forall kv, In kv post -> ts <= snd kv).
Proof.
  destruct d as [|kv d]; simpl; [discriminate |].
  intros H. injection H as H.
  destruct (min_scan_first_smallest _ _ _ _ H)
    as [[Heq Hall]|(pre & post & -> & Hb & Hpre & Hpost)].
  - subst kv. exists [], d. repeat split; auto. intros kv [].
  - exists (kv :: pre), post. repeat split; auto.
    intros x [<-|Hin]; auto.
Qed.

Lemma min_key_nonempty (d : dict datetime) :
  d <> [] -> exists k ts, min_key d = Some (k, ts).
Proof.
  destruct d as [|kv d]; [congruence |]. intros _. simpl.
  destruct (min_scan kv d) as [k ts]. eauto.
Qed.

(** On a well-formed cache of positive capacity [set] does not raise, and
    the value is then stored under the key. *)
Lemma set_succeeds (key : string) (value : pyval) (now : datetime) (c : t) :
  wf c -> 1 <= max_size c ->
  exists c',
    set key value now c = (c', Ok tt)
    /\ wf c'
    /\ max_size c' = max_size c
    /\ dict_get key (cache c') = Some value
    /\ (forall kv, In kv (cache c') -> kv = (key, value) \/ In kv (cache c)).
Proof.
  intros Hwf Hpos. pose proof (set_wf key value now c Hwf) as Hwf'.
  unfold set in *.
  destruct (Z.geb_spec (Z.of_nat (List.length (cache c))) (max_size c)) as [Hfull|Hroom].
  - assert (Hne : timestamps c <> []).
    { destruct Hwf as [Hk _]. intros He.
      assert (Hl : List.length (dict_keys (cache c)) = List.length (dict_keys (timestamps c)))
        by now rewrite Hk.
      unfold dict_keys in Hl. rewrite !length_map, He in Hl. simpl in Hl. lia. }
    destruct (min_key_nonempty _ Hne) as (ko & to & Hmin). rewrite Hmin in *.
    destruct (min_key_first_smallest _ _ _ Hmin) as (pre & post & Hts & _).
    assert (Hin : dict_get ko (cache c) <> None).
    { apply dict_get_in_keys. destruct Hwf as [-> _]. rewrite Hts.
      unfold dict_keys. rewrite map_app. apply in_or_app. right. now left. }
    unfold dict_mem in *. destruct (dict_get ko (cache c)); [| congruence].
    eexists. split; [reflexivity |]. simpl in *.
    repeat split; try apply Hwf'; [apply dict_get_set_same |].
    intros kv Hkv. apply dict_in_set in Hkv as [->|Hkv]; [now left | right].
    eapply dict_in_del; eauto.
  - eexists. split; [reflexivity |]. simpl in *.
    repeat split; try apply Hwf'; [apply dict_get_set_same |].
    intros kv Hkv. now apply dict_in_set in Hkv.
Qed.

(** C5.  On a cache that holds at most [max_size] entries (with
    [max_size] at least 1): [set] succeeds; below capacity it only stores
    the new entry; at capacity it first evicts exactly one entry, the
    first in insertion order among those with the oldest timestamp, and
    then stores the new entry; afterwards the cache holds at most
    [max_size] entries. *)
Theorem set_evicts_oldest_within_capacity
        (key : string) (value : pyval) (now : datetime) (c : t) :
  wf c ->
  1 <= max_size c ->
  Z.of_nat (List.length (cache c)) <= max_size c ->
  exists c',
    set key value now c = (c', Ok tt)
    /\ max_size c' = max_size c
    /\ Z.of_nat (List.length (cache c')) <= max_size c'
    /\ dict_get key (cache c') = Some value
    /\ dict_get key (timestamps c') = Some now
    /\ (Z.of_nat (List.length (cache c)) < max_size c ->
          cache c' = dict_set key value (cache c)
          /\ timestamps c' = dict_set key now (timestamps c))
    /\ (Z.of_nat (List.length (cache c)) = max_size c ->
          exists oldest t_old pre post,
            timestamps c = (pre ++ (oldest, t_old) :: post)%list
            /\ (forall kv, In kv pre -> t_old < snd kv)
            /\ (forall kv, In kv post -> t_old <= snd kv)
            /\ S (List.length (dict_del oldest (cache c))) = List.length (cache c)
            /\ dict_get oldest (dict_del oldest (cache c)) = None
            /\ (forall k, k <> oldest ->
                  dict_get k (dict_del oldest (cache c)) = dict_get k (cache c))
            /\ cache c' = dict_set key value (dict_del oldest (cache c))
            /\ timestamps c' = dict_set key now (dict_del oldest (timestamps c))).
Proof.
  intros Hwf Hpos Hlen. unfold set.
  destruct (Z.geb_spec (Z.of_nat (List.length (cache c))) (max_size c)) as [Hfull|Hroom].
  - (* at capacity *)
    assert (Hne : timestamps c <> []).
    { destruct Hwf as [Hk _]. intros He.
      assert (Hl : List.length (dict_keys (cache c)) = List.length (dict_keys (timestamps c)))
        by now rewrite Hk.
      unfold dict_keys in Hl. rewrite !length_map, He in Hl. simpl in Hl. lia. }
    destruct (min_key_nonempty _ Hne) as (ko & to & Hmin). rewrite Hmin.
    destruct (min_key_first_smallest _ _ _ Hmin) as (pre & post & Hts & Hpre & Hpost).
    assert (Hin : dict_get ko (cache c) <> None).
    { apply dict_get_in_keys. destruct Hwf as [-> _]. rewrite Hts.
      unfold dict_keys. rewrite map_app. apply in_or_app. right. now left. }
    pose proof (dict_length_del ko (cache c) Hin) as Hdel.
    unfold dict_mem. destruct (dict_get ko (cache c)) as [vo|] eqn:Hvo; [| congruence].
    eexists. split; [reflexivity |]. simpl.
    pose proof (dict_length_set key value (dict_del ko (cache c))) as Hset.
    repeat split.
    + destruct (dict_mem key (dict_del ko (cache c))); lia.
    + apply dict_get_set_same.
    + apply dict_get_set_same.
    + lia.
    + lia.
    + intros _. exists ko, to, pre, post. repeat split; auto.
      * apply dict_get_del_same. apply Hwf.
      * intros k Hk. now apply dict_get_del_other.
  - (* room left *)
    eexists. split; [reflexivity |]. simpl.
    pose proof (dict_length_set key value (cache c)) as Hset.
    repeat split.
    + destruct (dict_mem key (cache c)); lia.
    + apply dict_get_set_same.
    + apply dict_get_set_same.
    + lia.
Qed.

(** A full cache of two entries with equal timestamps: the first one
    inserted is evicted. *)
Lemma set_evicts_oldest_within_capacity_witness :
  exists c',
    set "q3" (PInt 3) 9 (mk [("q1", PInt 1); ("q2", PInt 2)] 2 3600
                            [("q1", 5); ("q2", 5)])
      = (c', Ok tt)
    /\ cache c' = [("q2", PInt 2); ("q3", PInt 3)]
    /\ Z.of_nat (List.length (cache c')) <= 2.
Proof.
  destruct (set_evicts_oldest_within_capacity "q3" (PInt 3) 9
              (mk [("q1", PInt 1); ("q2", PInt 2)] 2 3600 [("q1", 5); ("q2", 5)]))
    as (c' & Hset & Hmax & Hlen & _).
  - split; [reflexivity |]. simpl.
    constructor; [simpl; intros [H|[]]; discriminate |].
    constructor; [simpl; tauto | constructor].
  - simpl; lia.
  - simpl; lia.
  - exists c'. split; [exact Hset |].
    split; [| rewrite Hmax in Hlen; exact Hlen].
    simpl in Hset. injection Hset as <-. reflexivity.
Defined.

(** A cache of capacity 0 has nothing to evict: [min] raises on the empty
    timestamps and nothing is stored. *)
Lemma set_zero_capacity_raises (key : string) (value : pyval) (now : datetime) :
  set key value now (init 0 3600) = (init 0 3600, Raise ValueError).
Proof. reflexivity. Qed.

(** The seconds field of an age of less than a day is the age in whole
    seconds. *)
Lemma timedelta_seconds_within_day (now ts : datetime) :
  0 <= now - ts < us_per_day ->
  timedelta_seconds now ts = (now - ts) / us_per_second.
Proof.
  intros H. unfold timedelta_seconds. now rewrite Z.mod_small.
Qed.

(** C4, as the code has it.  A key that is absent yields [None] and leaves
    the cache as it is.  For a key that is present and whose age
    [now - insertedAt] is below one day: if the age in whole seconds is at
    most [ttl] (an age equal to [ttl] included), [get] returns the stored
    value and leaves the cache as it is; if it is more than [ttl], [get]
    removes the entry, keeps every other entry, and returns [None]. *)
Theorem get_fresh_or_expired (key : string) (now : datetime) (c : t) :
  wf c ->
  (dict_get key (cache c) = None -> get key now c = (c, Ok PNone))
  /\ (forall v, dict_get key (cache c) = Some v ->
        exists ts,
          dict_get key (timestamps c) = Some ts
          /\ (0 <= now - ts < us_per_day ->
               ((now - ts) / us_per_second <= ttl c ->
                  get key now c = (c, Ok v))
               /\ (ttl c < (now - ts) / us_per_second ->
                    exists c',
                      get key now c = (c', Ok PNone)
                      /\ dict_get key (cache c') = None
                      /\ dict_get key (timestamps c') = None
                      /\ (forall k, k <> key ->
                            dict_get k (cache c') = dict_get k (cache c)
                            /\ dict_get k (timestamps c') = dict_get k (timestamps c))))).
Proof.
  intros Hwf. split.
  - intros Hnone. unfold get. now rewrite Hnone.
  - intros v Hv. destruct (wf_timestamp c key v Hwf Hv) as [ts Hts].
    exists ts. split; [exact Hts |]. intros Hage.
    unfold get. rewrite Hv, Hts, (timedelta_seconds_within_day _ _ Hage).
    split.
    + intros Hfresh.
      destruct (Z.gtb_spec ((now - ts) / us_per_second) (ttl c)); [lia | reflexivity].
    + intros Hexp.
      destruct (Z.gtb_spec ((now - ts) / us_per_second) (ttl c)); [| lia].
      eexists. split; [reflexivity |]. simpl.
      destruct Hwf as [Hk Hnd].
      split; [now apply dict_get_del_same |].
      split; [apply dict_get_del_same; now rewrite <- Hk |].
      intros k Hne. split; now apply dict_get_del_other.
Qed.

(** An entry of age exactly [ttl] is still served; one second later it is
    removed. *)
Lemma get_fresh_or_expired_witness :
  get "q" (3600 * us_per_second) (mk [("q", PInt 7)] 1000 3600 [("q", 0)])
    = (mk [("q", PInt 7)] 1000 3600 [("q", 0)], Ok (PInt 7))
  /\ exists c',
       get "q" (3601 * us_per_second) (mk [("q", PInt 7)] 1000 3600 [("q", 0)])
         = (c', Ok PNone)
       /\ dict_get "q" (cache c') = None.
Proof.
  assert (Hwf : wf (mk [("q", PInt 7)] 1000 3600 [("q", 0)])).
  { split; [reflexivity |]. simpl.
    constructor; [simpl; tauto | constructor]. }
  split.
  - destruct (get_fresh_or_expired "q" (3600 * us_per_second) _ Hwf) as [_ H].
    destruct (H (PInt 7) eq_refl) as (ts & Hts & Hage).
    simpl in Hts. injection Hts as <-.
    apply Hage; [vm_compute; split; congruence | vm_compute; congruence].
  - destruct (get_fresh_or_expired "q" (3601 * us_per_second) _ Hwf) as [_ H].
    destruct (H (PInt 7) eq_refl) as (ts & Hts & Hage).
    simpl in Hts. injection Hts as <-.
    destruct Hage as [_ Hexp]; [vm_compute; split; congruence |].
    destruct Hexp as (c' & Hget & Hnone & _); [vm_compute; reflexivity |].
    exists c'. split; [exact Hget | exact Hnone].
Defined.

(** C4 as stated fails: an entry whose age equals [ttl], so that
    [now - insertedAt < ttl] is false, is returned and kept. *)
Lemma get_serves_entry_of_age_ttl :
  let c := mk [("q", PInt 7)] 1000 3600 [("q", 0)] in
  let now := 3600 * us_per_second in
  get "q" now c = (c, Ok (PInt 7))
  /\ ~ (now - 0 < ttl c * us_per_second).
Proof.
  split; [reflexivity | vm_compute; congruence].
Qed.

(** The age test reads the seconds field only, so whole days of age are
    not counted: an entry one day and five seconds old is served. *)
Lemma get_ignores_whole_days :
  let c := mk [("q", PInt 7)] 1000 3600 [("q", 0)] in
  let now := us_per_day + 5 * us_per_second in
  timedelta_days now 0 = 1
  /\ timedelta_seconds now 0 = 5
  /\ get "q" now c = (c, Ok (PInt 7)).
Proof. repeat split. Qed.

End QueryCacheFacts.

(** ** Connection pool *)

Lemma list_pop_snoc {A : Type} (l : list A) (x : A) :
  list_pop (l ++ [x]) = Some (l, x).
Proof.
  induction l as [|y l IH]; simpl; [reflexivity | now rewrite IH].
Qed.

Lemma list_pop_some {A : Type} (l rest : list A) (x : A) :
  list_pop l = Some (rest, x) -> l = (rest ++ [x])%list.
Proof.
  revert rest. induction l as [|y l IH]; simpl; intros rest; [discriminate |].
  destruct (list_pop l) as [[r z]|] eqn:E.
  - intros H. injection H as <- <-. simpl. f_equal. now apply IH.
  - destruct l; [| simpl in E; destruct (list_pop l) as [[? ?]|]; discriminate].
    intros H. now injection H as <- <-.
Qed.

Lemma list_pop_none {A : Type} (l : list A) : list_pop l = None -> l = [].
Proof.
  destruct l as [|y l]; simpl; [reflexivity |].
  destruct (list_pop l) as [[? ?]|]; discriminate.
Qed.

Module ConnectionPoolFacts.
Import ConnectionPool.

Lemma initialize_pool_fields (n : nat) : forall h p,
  let s := initialize_pool n h p in
  pool_size (snd s) = pool_size p
  /\ database (snd s) = database p
  /\ idle (snd s) = idle p + Z.of_nat n.
Proof.
  unfold idle. induction n as [|n IH]; intros h p; simpl.
  - repeat split. lia.
  - destruct (IH (mkHandles (S (next_conn h)) (closed h))
                 (mk (database p) (pool_size p)
                     (connections p ++ [mkConn (next_conn h) true])))
      as (Hs & Hd & Hl).
    simpl in *. rewrite Hs, Hd, Hl, length_app. simpl. repeat split. lia.
Qed.

Lemma init_fields (db : string) (size : Z) (h : Handles) :
  pool_size (snd (init db size h)) = size
  /\ idle (snd (init db size h)) = Z.max 0 size.
Proof.
  unfold init.
  destruct (initialize_pool_fields (Z.to_nat size) h (mk db size [])) as (Hs & _ & Hl).
  split; [exact Hs |]. rewrite Hl. unfold idle. simpl. lia.
Qed.

(** One operation keeps the capacity and keeps the idle set within it. *)
Lemma step_bounded (s : Handles * t) (o : op) :
  idle (snd s) <= pool_size (snd s) ->
  pool_size (snd (step s o)) = pool_size (snd s)
  /\ idle (snd (step s o)) <= pool_size (snd s).
Proof.
  destruct s as [h p]. unfold idle. simpl. intros Hle.
  destruct o as [|conn]; simpl.
  - unfold get_connection.
    destruct (list_pop (connections p)) as [[rest conn]|] eqn:E; simpl.
    + apply list_pop_some in E. rewrite E, length_app in Hle. simpl in Hle.
      split; [reflexivity | lia].
    + split; [reflexivity | exact Hle].
  - unfold return_connection, idle.
    destruct (Z.ltb_spec (Z.of_nat (List.length (connections p))) (pool_size p));
      simpl; [| split; [reflexivity | exact Hle]].
    rewrite length_app. simpl. split; [reflexivity | lia].
Qed.

Lemma run_bounded (ops : list op) : forall s,
  idle (snd s) <= pool_size (snd s) ->
  pool_size (snd (run ops s)) = pool_size (snd s)
  /\ idle (snd (run ops s)) <= pool_size (snd s).
Proof.
  unfold run. induction ops as [|o ops IH]; intros s Hle; simpl.
  - split; [reflexivity | exact Hle].
  - destruct (step_bounded s o Hle) as [Hs Hl].
    destruct (IH (step s o)) as [Hs' Hl']; [now rewrite Hs |].
    rewrite Hs in Hs', Hl'. split; assumption.
Qed.

(** C7.  Start from a pool created with a capacity [size] that is not
    negative and let clients acquire and release in any order.  In the
    state reached: an acquire takes the connection pooled last if there is
    one and opens a fresh one otherwise, leaving the pool as it is; a
    release puts the connection back exactly when fewer than [size] are
    idle and closes it otherwise; and the number of idle connections is at
    most [size]. *)
Theorem pool_acquire_release_bounded
        (db : string) (size : Z) (h0 : Handles) (ops : list op) :
  0 <= size ->
  let h := fst (run ops (init db size h0)) in
  let p := snd (run ops (init db size h0)) in
  pool_size p = size
  /\ idle p <= size
  /\ (forall rest conn, connections p = (rest ++ [conn])%list ->
        get_connection h p = (h, mk (database p) size rest, conn))
  /\ (connections p = [] ->
        get_connection h p =
          (mkHandles (S (next_conn h)) (closed h), p, mkConn (next_conn h) false))
  /\ (forall conn, idle p < size ->
        return_connection conn h p =
          (h, mk (database p) size (connections p ++ [conn])))
  /\ (forall conn, size <= idle p ->
        return_connection conn h p = (conn_close conn h, p)
        /\ is_closed conn (conn_close conn h) = true)
  /\ (forall o, idle (snd (step (h, p) o)) <= size).
Proof.
  intros Hsize h p.
  destruct (init_fields db size h0) as [Hs0 Hl0].
  destruct (run_bounded ops (init db size h0)) as [Hs Hl]; [rewrite Hs0, Hl0; lia |].
  fold p in Hs, Hl. rewrite Hs0 in Hs, Hl.
  split; [exact Hs |]. split; [exact Hl |].
  split; [| split; [| split; [| split]]].
  - intros rest conn Hc. unfold get_connection.
    now rewrite Hc, list_pop_snoc, Hs.
  - intros Hc. unfold get_connection. now rewrite Hc.
  - intros conn Hlt. unfold return_connection. fold (idle p). rewrite Hs.
    destruct (Z.ltb_spec (idle p) size); [reflexivity | lia].
  - intros conn Hge. unfold return_connection. fold (idle p). rewrite Hs.
    destruct (Z.ltb_spec (idle p) size); [lia |].
    split; [reflexivity |]. unfold is_closed, conn_close. simpl.
    now rewrite Nat.eqb_refl.
  - intros o. destruct (step_bounded (h, p) o) as [_ H]; simpl in *;
      [rewrite Hs; exact Hl | rewrite Hs in H; exact H].
Qed.

(** A pool of capacity 2: two acquires empty it, a third opens a fresh
    connection, and of three releases the third closes its connection. *)
Lemma pool_acquire_release_bounded_witness :
  let s := run [Acquire; Acquire; Acquire;
                Release (mkConn 1 true); Release (mkConn 0 true);
                Release (mkConn 2 false)]
               (init "deepcode.db" 2 (mkHandles 0 [])) in
  idle (snd s) <= 2
  /\ connections (snd s) = [mkConn 1 true; mkConn 0 true]
  /\ closed (fst s) = [2%nat].
Proof.
  split; [| split; reflexivity].
  apply (pool_acquire_release_bounded "deepcode.db" 2 (mkHandles 0 [])
           [Acquire; Acquire; Acquire;
            Release (mkConn 1 true); Release (mkConn 0 true);
            Release (mkConn 2 false)]).
  lia.
Defined.

End ConnectionPoolFacts.

(** ** Database *)

Module DatabaseFacts.
Import Database.

Lemma get_connection_closed (h : Handles) (p : ConnectionPool.t) :
  closed (fst (fst (ConnectionPool.get_connection h p))) = closed h.
Proof.
  unfold ConnectionPool.get_connection.
  destruct (list_pop (ConnectionPool.connections p)) as [[rest conn]|]; reflexivity.
Qed.

(** After a release the connection is idle in the pool or closed. *)
Lemma return_connection_idle_or_closed (conn : Conn) (h : Handles)
      (p : ConnectionPool.t) :
  let s := ConnectionPool.return_connection conn h p in
  In conn (ConnectionPool.connections (snd s))
  \/ is_closed conn (fst s) = true.
Proof.
  unfold ConnectionPool.return_connection.
  destruct (_ <? _); simpl.
  - left. apply in_or_app. right. now left.
  - right. unfold is_closed. simpl. now rewrite Nat.eqb_refl.
Qed.

(** Follow every path of a method: split on each test and each outcome of
    the backend, reusing what is already known about them. *)
Ltac follow_paths :=
  repeat (simpl;
          match goal with
          | H : ?t = _ |- context [if ?t then _ else _] => rewrite H
          | H : ?t = _ |- context [let (_, _) := ?t in _] => rewrite H
          | H : ?t = _ |- context [match ?t with (_, _) => _ end] => rewrite H
          | |- context [is_closed ?c ?h] =>
              destruct (is_closed c h) eqn:?
          | |- context [cursor_execute ?a ?b ?c] =>
              destruct (cursor_execute a b c) as [? [?|?]] eqn:?
          | |- context [conn_commit ?a] =>
              destruct (conn_commit a) as [? [[]|?]] eqn:?
          | |- context [ConnectionPool.return_connection ?c ?h ?p] =>
              destruct (ConnectionPool.return_connection c h p) eqn:?
          | |- context [one_result ?c ?r] =>
              destruct (one_result c r) as [?|?] eqn:?
          | |- context [all_results ?c ?r] =>
              destruct (all_results c r) as [[|? ?]|?] eqn:?
          | |- context [QueryCache.set ?k ?v ?n ?c] =>
              destruct (QueryCache.set k v n c) as [? [[]|?]] eqn:?
          | |- context [truthy ?v] =>
              destruct (truthy v) eqn:?
          end).

Lemma init_cache_ok {Store : Type} (database : string) (st : Store) (h : Handles) :
  cache_ok (cache (db (init database st h))).
Proof.
  unfold init. destruct (ConnectionPool.init database 5 h). simpl.
  split; [apply QueryCacheFacts.init_wf | split; [simpl; lia | constructor]].
Qed.

(** When [cache.get] answers [None], the key is not (or no longer) in the
    cache, and the cache keeps its shape. *)
Lemma get_miss_ok (key : string) (now : datetime) (c c1 : QueryCache.t) :
  cache_ok c ->
  QueryCache.get key now c = (c1, Ok PNone) ->
  cache_ok c1 /\ dict_get key (QueryCache.cache c1) = None.
Proof.
  intros (Hwf & Hpos & Hall). unfold QueryCache.get.
  destruct (dict_get key (QueryCache.cache c)) as [v|] eqn:Hv.
  - destruct (dict_get key (QueryCache.timestamps c)) as [ts|]; [| discriminate].
    destruct (_ >? _); intros H.
    + injection H as <-.
      split; [| simpl; apply dict_get_del_same, Hwf].
      split; [now apply QueryCacheFacts.wf_del |]. split; [exact Hpos |].
      simpl. rewrite Forall_forall in *. intros kv Hkv.
      apply Hall. eapply dict_in_del; eauto.
    + assert (Hnone : v = PNone) by congruence. subst v.
      apply dict_get_in in Hv.
      rewrite Forall_forall in Hall. apply Hall in Hv. discriminate.
  - intros H. injection H as <-.
    split; [split; [exact Hwf | split; [exact Hpos | exact Hall]] | exact Hv].
Qed.

Lemma get_cache_ok (key : string) (now : datetime) (c : QueryCache.t) :
  cache_ok c -> cache_ok (fst (QueryCache.get key now c)).
Proof.
  intros Hok. pose proof Hok as (Hwf & Hpos & Hall). unfold QueryCache.get.
  destruct (dict_get key (QueryCache.cache c)); [| exact Hok].
  destruct (dict_get key (QueryCache.timestamps c)); [| exact Hok].
  destruct (_ >? _); [| exact Hok]. simpl.
  split; [now apply QueryCacheFacts.wf_del |]. split; [exact Hpos |].
  simpl. rewrite Forall_forall in *. intros kv Hkv.
  apply Hall. eapply dict_in_del; eauto.
Qed.

Lemma set_cache_ok (key : string) (v : pyval) (now : datetime) (c : QueryCache.t) :
  cache_ok c -> truthy v = true -> cache_ok (fst (QueryCache.set key v now c)).
Proof.
  intros (Hwf & Hpos & Hall) Hv.
  destruct (QueryCacheFacts.set_succeeds key v now c Hwf Hpos)
    as (c' & -> & Hwf' & Hmax & _ & Hin).
  simpl. split; [exact Hwf' |]. split; [now rewrite Hmax |].
  rewrite Forall_forall in *. intros kv Hkv.
  destruct (Hin kv Hkv) as [->|Hold]; [exact Hv | now apply Hall].
Qed.

(** What [cache.get] can answer on such a cache: a stored, truthy value
    with the cache untouched, or [None]. *)
Lemma get_hit_or_miss (key : string) (now : datetime) (c : QueryCache.t) :
  cache_ok c ->
  (exists v, QueryCache.get key now c = (c, Ok v)
             /\ dict_get key (QueryCache.cache c) = Some v
             /\ truthy v = true)
  \/ (exists c1, QueryCache.get key now c = (c1, Ok PNone)).
Proof.
  intros (Hwf & Hpos & Hall). unfold QueryCache.get.
  destruct (dict_get key (QueryCache.cache c)) as [v|] eqn:Hv; [| right; eauto].
  destruct (QueryCacheFacts.wf_timestamp c key v Hwf Hv) as [ts ->].
  destruct (_ >? _); [right; eauto | left].
  exists v. repeat split. apply dict_get_in in Hv.
  rewrite Forall_forall in Hall. now apply Hall in Hv.
Qed.

Section WithBackend.
Context {R : Runtime} {Store : Type} {B : Backend Store}.
Implicit Types (s : state Store) (sql : string) (params : list pyval).

(** [execute] takes one connection and gives it back, whatever the
    statement and the commit do. *)
Lemma execute_pool_view s sql params :
  pool_view (fst (execute sql params s)) = released s.
Proof.
  unfold execute, bind, try_finally, get_connection, return_connection,
    conn_execute, commit, ret, released, pool_view.
  destruct (ConnectionPool.get_connection (handles s) (pool (db s)))
    as [[h p] conn].
  follow_paths; reflexivity.
Qed.

(** [execute] does not touch the cache, on any path. *)
Lemma execute_cache s sql params :
  cache (db (fst (execute sql params s))) = cache (db s).
Proof.
  unfold execute, bind, try_finally, get_connection, return_connection,
    conn_execute, commit, ret.
  destruct (ConnectionPool.get_connection (handles s) (pool (db s)))
    as [[h p] conn].
  follow_paths; reflexivity.
Qed.

(** A statement that the backend runs and commits on an open connection:
    [execute] returns its cursor, the store is the committed one, the
    connection is back, the cache is as before. *)
Lemma execute_success s sql params st1 cur st2 :
  is_closed (acquired s) (handles s) = false ->
  cursor_execute (store s) sql params = (st1, Ok cur) ->
  conn_commit st1 = (st2, Ok tt) ->
  execute sql params s =
    (mkState st2 (fst (released s))
             (mk (snd (released s)) (cache (db s)) (tables (db s))),
     Ok cur).
Proof.
  intros Hopen Hexec Hcommit.
  unfold execute, bind, try_finally, get_connection, return_connection,
    conn_execute, commit, ret, released.
  unfold acquired, is_closed in Hopen.
  pose proof (get_connection_closed (handles s) (pool (db s))) as Hcl.
  destruct (ConnectionPool.get_connection (handles s) (pool (db s)))
    as [[h p] conn].
  simpl in *. unfold is_closed. rewrite Hcl, Hopen. simpl.
  rewrite Hexec. simpl. rewrite Hcl, Hopen, Hcommit. simpl.
  destruct (ConnectionPool.return_connection conn h p); reflexivity.
Qed.

(** A read takes a connection only when the cache does not answer, and
    then gives it back whatever happens in between. *)
Lemma fetch_one_pool_view s sql params t_get t_set :
  pool_view (fst (fetch_one sql params t_get t_set s))
  = after_read (cache_key sql params) t_get s.
Proof.
  unfold fetch_one, after_read, bind, cache_get.
  destruct (QueryCache.get (cache_key sql params) t_get (cache (db s)))
    as [c [v|e]]; [| reflexivity].
  destruct (truthy v); [reflexivity |].
  unfold try_finally, get_connection, return_connection, conn_execute,
    cache_set, lift, ret, bind, released, pool_view, with_cache.
  simpl.
  destruct (ConnectionPool.get_connection (handles s) (pool (db s)))
    as [[h p] conn].
  follow_paths; reflexivity.
Qed.

Lemma fetch_all_pool_view s sql params t_get t_set :
  pool_view (fst (fetch_all sql params t_get t_set s))
  = after_read (cache_key sql params) t_get s.
Proof.
  unfold fetch_all, after_read, bind, cache_get.
  destruct (QueryCache.get (cache_key sql params) t_get (cache (db s)))
    as [c [v|e]]; [| reflexivity].
  destruct (truthy v); [reflexivity |].
  unfold try_finally, get_connection, return_connection, conn_execute,
    cache_set, lift, ret, bind, released, pool_view, with_cache.
  simpl.
  destruct (ConnectionPool.get_connection (handles s) (pool (db s)))
    as [[h p] conn].
  follow_paths; reflexivity.
Qed.

(** The reads keep the shape of the cache. *)
Lemma fetch_one_cache_ok s sql params t_get t_set :
  cache_ok (cache (db s)) ->
  cache_ok (cache (db (fst (fetch_one sql params t_get t_set s)))).
Proof.
  intros Hok. unfold fetch_one, bind, cache_get.
  pose proof (get_cache_ok (cache_key sql params) t_get _ Hok) as Hget.
  destruct (QueryCache.get (cache_key sql params) t_get (cache (db s)))
    as [c [v|e]]; simpl in Hget; [| exact Hget].
  destruct (truthy v); [exact Hget |].
  unfold try_finally, get_connection, return_connection, conn_execute,
    cache_set, lift, ret, bind, with_cache.
  simpl.
  destruct (ConnectionPool.get_connection (handles s) (pool (db s)))
    as [[h p] conn].
  follow_paths; try exact Hget;
    match goal with
    | Htr : truthy ?r = true, Hset : QueryCache.set ?k ?r ?n c = (?c2, _)
      |- cache_ok ?c2 =>
        pose proof (set_cache_ok k r n c Hget Htr) as H; now rewrite Hset in H
    end.
Qed.

Lemma fetch_all_cache_ok s sql params t_get t_set :
  cache_ok (cache (db s)) ->
  cache_ok (cache (db (fst (fetch_all sql params t_get t_set s)))).
Proof.
  intros Hok. unfold fetch_all, bind, cache_get.
  pose proof (get_cache_ok (cache_key sql params) t_get _ Hok) as Hget.
  destruct (QueryCache.get (cache_key sql params) t_get (cache (db s)))
    as [c [v|e]]; simpl in Hget; [| exact Hget].
  destruct (truthy v); [exact Hget |].
  unfold try_finally, get_connection, return_connection, conn_execute,
    cache_set, lift, ret, bind, with_cache.
  simpl.
  destruct (ConnectionPool.get_connection (handles s) (pool (db s)))
    as [[h p] conn].
  follow_paths; try exact Hget;
    match goal with
    | Hset : QueryCache.set ?k ?r ?n c = (?c2, _) |- cache_ok ?c2 =>
        pose proof (set_cache_ok k r n c Hget eq_refl) as H; now rewrite Hset in H
    end.
Qed.

(** C8.  A read with cache key [cache_key sql params], on a database
    whose cache has the shape its methods keep.  Either the cache
    answers or it does not.  When it answers, [fetch_one] and
    [fetch_all] return the cached value and the whole state (store,
    handles, pool, cache) is as before.  When it does not, and the
    statement runs on the acquired connection, the result is what the
    rows give, the store is the one the statement left, the connection
    is back, and the key is in the cache afterwards exactly when the
    result is non-empty. *)
Theorem fetch_hit_or_miss s sql params (t_get t_set : datetime) :
  cache_ok (cache (db s)) ->
  let key := cache_key sql params in
  ((exists v, QueryCache.get key t_get (cache (db s)) = (cache (db s), Ok v)
              /\ dict_get key (QueryCache.cache (cache (db s))) = Some v
              /\ truthy v = true)
   \/ (exists c1, QueryCache.get key t_get (cache (db s)) = (c1, Ok PNone)))
  /\ (forall v,
        QueryCache.get key t_get (cache (db s)) = (cache (db s), Ok v) ->
        truthy v = true ->
        fetch_one sql params t_get t_set s = (s, Ok v)
        /\ fetch_all sql params t_get t_set s = (s, Ok v))
  /\ (forall c1 st1 rows,
        QueryCache.get key t_get (cache (db s)) = (c1, Ok PNone) ->
        is_closed (acquired s) (handles s) = false ->
        cursor_execute (store s) sql params = (st1, Ok rows) ->
        (forall res,
           one_result (acquired s) (hd_error rows) = Ok res ->
           exists s',
             fetch_one sql params t_get t_set s = (s', Ok res)
             /\ store s' = st1
             /\ pool_view s' = released s
             /\ dict_get key (QueryCache.cache (cache (db s')))
                = if truthy res then Some res else None)
        /\ (forall results,
              all_results (acquired s) rows = Ok results ->
              exists s',
                fetch_all sql params t_get t_set s = (s', Ok (PList results))
                /\ store s' = st1
                /\ pool_view s' = released s
                /\ dict_get key (QueryCache.cache (cache (db s')))
                   = match results with
                     | [] => None
                     | _ :: _ => Some (PList results)
                     end)).
Proof.
  intros Hok key. split; [now apply get_hit_or_miss |]. split.
  - intros v Hget Hv.
    unfold fetch_one, fetch_all, bind, cache_get. fold key.
    rewrite Hget, Hv. unfold ret, with_cache.
    destruct s as [st h [p c tb]]. simpl. split; reflexivity.
  - intros c1 st1 rows Hget Hopen Hexec.
    destruct (get_miss_ok _ _ _ _ Hok Hget) as [(Hwf1 & Hpos1 & Hall1) Hnone].
    unfold acquired, is_closed in Hopen.
    pose proof (get_connection_closed (handles s) (pool (db s))) as Hcl.
    split.
    + intros res Hres.
      unfold fetch_one, bind, cache_get. fold key. rewrite Hget. simpl.
      unfold try_finally, get_connection, return_connection, conn_execute,
        cache_set, lift, ret, bind, released, pool_view, with_cache,
        acquired in *.
      simpl.
      destruct (ConnectionPool.get_connection (handles s) (pool (db s)))
        as [[h p] conn].
      simpl in *. unfold is_closed. rewrite Hcl, Hopen, Hexec. simpl.
      rewrite Hres. simpl.
      destruct (truthy res) eqn:Htr; simpl.
      * destruct (QueryCacheFacts.set_succeeds key res t_set c1 Hwf1 Hpos1)
          as (c2 & Hset & _ & _ & Hstored & _).
        rewrite Hset. simpl.
        destruct (ConnectionPool.return_connection conn h p).
        eexists. split; [reflexivity |]. simpl. repeat split. exact Hstored.
      * destruct (ConnectionPool.return_connection conn h p).
        eexists. split; [reflexivity |]. simpl. repeat split. exact Hnone.
    + intros results Hres.
      unfold fetch_all, bind, cache_get. fold key. rewrite Hget. simpl.
      unfold try_finally, get_connection, return_connection, conn_execute,
        cache_set, lift, ret, bind, released, pool_view, with_cache,
        acquired in *.
      simpl.
      destruct (ConnectionPool.get_connection (handles s) (pool (db s)))
        as [[h p] conn].
      simpl in *. unfold is_closed. rewrite Hcl, Hopen, Hexec. simpl.
      rewrite Hres. simpl.
      destruct results as [|r0 results]; simpl.
      * destruct (ConnectionPool.return_connection conn h p).
        eexists. split; [reflexivity |]. simpl. repeat split. exact Hnone.
      * destruct (QueryCacheFacts.set_succeeds key (PList (r0 :: results))
                    t_set c1 Hwf1 Hpos1)
          as (c2 & Hset & _ & _ & Hstored & _).
        rewrite Hset. simpl.
        destruct (ConnectionPool.return_connection conn h p).
        eexists. split; [reflexivity |]. simpl. repeat split. exact Hstored.
Qed.
End WithBackend.

(** A first read of a user row misses the cache, runs the query and stores
    the row under the key. *)
Lemma fetch_hit_or_miss_witness :
  let B := scripted (fun _ => Ok [[("id", PInt 1); ("name", PStr "A")]]) in
  let s0 := init "deepcode.db" [] (mkHandles 0 []) in
  exists s',
    fetch_one (R := plain_runtime) (B := B)
              "SELECT * FROM users WHERE id = ?" [PInt 1] 10 11 s0
      = (s', Ok (PDict [("id", PInt 1); ("name", PStr "A")]))
    /\ store s' = [("SELECT * FROM users WHERE id = ?", [PInt 1])]
    /\ dict_get "SELECT * FROM users WHERE id = ?:(1,)"
                (QueryCache.cache (cache (db s')))
       = Some (PDict [("id", PInt 1); ("name", PStr "A")]).
Proof.
  intros B s0.
  destruct (fetch_hit_or_miss (R := plain_runtime) (B := B) s0
              "SELECT * FROM users WHERE id = ?" [PInt 1] 10 11
              (init_cache_ok "deepcode.db" [] (mkHandles 0 [])))
    as (_ & _ & Hmiss).
  destruct (Hmiss (QueryCache.init 1000 3600)
                  [("SELECT * FROM users WHERE id = ?", [PInt 1])]
                  [[("id", PInt 1); ("name", PStr "A")]]
                  eq_refl eq_refl eq_refl) as [Hone _].
  destruct (Hone (PDict [("id", PInt 1); ("name", PStr "A")]) eq_refl)
    as (s' & Hfetch & Hstore & _ & Hcached).
  exists s'. split; [exact Hfetch |]. split; [exact Hstore | exact Hcached].
Defined.

(** C10.  [execute], [fetch_one] and [fetch_all] give back the connection
    they take, on every path: the handles and the pool after a call are
    those after one acquire and release (for a read that the cache
    answers, those before the call), whatever the backend does with the
    statement.  So two backends, of which one may fail where the other
    succeeds, leave the same handles and pool, and the connection taken
    is afterwards idle in the pool or closed. *)
Theorem connection_returned_on_every_path
        {R : Runtime} {Store : Type} (B1 B2 : Backend Store)
        (s : state Store) (sql : string) (params : list pyval)
        (t_get t_set : datetime) :
  pool_view (fst (execute (B := B1) sql params s)) = released s
  /\ pool_view (fst (execute (B := B1) sql params s))
     = pool_view (fst (execute (B := B2) sql params s))
  /\ pool_view (fst (fetch_one (B := B1) sql params t_get t_set s))
     = after_read (cache_key sql params) t_get s
  /\ pool_view (fst (fetch_one (B := B1) sql params t_get t_set s))
     = pool_view (fst (fetch_one (B := B2) sql params t_get t_set s))
  /\ pool_view (fst (fetch_all (B := B1) sql params t_get t_set s))
     = after_read (cache_key sql params) t_get s
  /\ pool_view (fst (fetch_all (B := B1) sql params t_get t_set s))
     = pool_view (fst (fetch_all (B := B2) sql params t_get t_set s))
  /\ (In (acquired s) (ConnectionPool.connections (snd (released s)))
      \/ is_closed (acquired s) (fst (released s)) = true).
Proof.
  rewrite !(execute_pool_view (B := B1)), !(execute_pool_view (B := B2)),
    !(fetch_one_pool_view (B := B1)), !(fetch_one_pool_view (B := B2)),
    !(fetch_all_pool_view (B := B1)), !(fetch_all_pool_view (B := B2)).
  repeat split.
  unfold acquired, released.
  destruct (ConnectionPool.get_connection (handles s) (pool (db s)))
    as [[h p] conn].
  apply return_connection_idle_or_closed.
Qed.

(** A statement that fails and one that succeeds, from the same state of
    a fresh database: the pool ends up as it started in both cases. *)
Example failing_statement_returns_connection :
  let s0 := init "deepcode.db" [] (mkHandles 0 []) in
  let failing := scripted (fun _ => Raise (OperationalError "no such table: users")) in
  let working := scripted (fun _ => Ok []) in
  snd (execute (B := failing) "DELETE FROM users" [] s0)
    = Raise (OperationalError "no such table: users")
  /\ snd (execute (B := working) "DELETE FROM users" [] s0)
     = Ok []
  /\ pool_view (fst (execute (B := failing) "DELETE FROM users" [] s0))
     = pool_view s0
  /\ pool_view (fst (execute (B := working) "DELETE FROM users" [] s0))
     = pool_view s0.
Proof. repeat split. Qed.

End DatabaseFacts.

(** ** Model *)

Module ModelFacts.
Import Database Model DatabaseFacts.

Lemma filter_keys_not_id (d : dict pyval) :
  filter (fun k => negb (k =? "id")%string) (dict_keys d)
  = map fst (filter not_id d).
Proof.
  unfold dict_keys, not_id. induction d as [|[k v] d IH]; simpl; [reflexivity |].
  destruct (k =? "id")%string; simpl; now rewrite IH.
Qed.

Section WithBackend.
Context {R : Runtime} {Store : Type} {B : Backend Store}.
Implicit Types (s : state Store) (m : Model.t).

(** A write that the backend runs and commits ends with an empty
    cache. *)
Lemma write_then_clear s sql params st1 cur st2 :
  is_closed (acquired s) (handles s) = false ->
  cursor_execute (store s) sql params = (st1, Ok cur) ->
  conn_commit st1 = (st2, Ok tt) ->
  bind (execute sql params) (fun _ => bind cache_clear (fun _ => ret true)) s
  = (mkState st2 (fst (released s))
             (Database.mk (snd (released s)) (QueryCache.clear (cache (db s)))
                          (tables (db s))),
     Ok true).
Proof.
  intros Hopen Hexec Hcommit. unfold bind at 1.
  rewrite (execute_success s sql params st1 cur st2 Hopen Hexec Hcommit).
  reflexivity.
Qed.

(** C9.  [delete()] returns [False], with the whole state as it was,
    when the instance has no attribute [id], and it returns [False] in
    no other case.  When the instance has an [id] and the backend runs
    and commits the statement, [delete()] has executed
    DELETE FROM <table> WHERE id = ? bound to that id: the store is the
    committed one, the cache is empty, and the result is [True]. *)
Theorem delete_requires_id m s :
  (dict_get "id" (attributes m) = None -> delete m s = (s, Ok false))
  /\ (forall s', delete m s = (s', Ok false) ->
        dict_get "id" (attributes m) = None)
  /\ (forall id st1 cur st2,
        dict_get "id" (attributes m) = Some id ->
        is_closed (acquired s) (handles s) = false ->
        cursor_execute (store s)
          ("DELETE FROM " ++ tablename m ++ " WHERE id = ?") [id] = (st1, Ok cur) ->
        conn_commit st1 = (st2, Ok tt) ->
        exists s',
          delete m s = (s', Ok true)
          /\ store s' = st2
          /\ pool_view s' = released s
          /\ QueryCache.cache (cache (db s')) = []
          /\ QueryCache.timestamps (cache (db s')) = []).
Proof.
  unfold delete. repeat split.
  - intros ->. reflexivity.
  - destruct (dict_get "id" (attributes m)) as [id|]; [| reflexivity].
    unfold bind, cache_clear, ret.
    destruct (execute _ _ s) as [s1 [cur|e]]; discriminate.
  - intros id st1 cur st2 -> Hopen Hexec Hcommit.
    rewrite (write_then_clear s _ _ st1 cur st2 Hopen Hexec Hcommit).
    eexists. split; [reflexivity |]. simpl.
    unfold pool_view. simpl. destruct (released s). repeat split.
Qed.

(** C6, as the code has it.  With [attrs] the attributes of the instance
    whose names do not start with an underscore: if the instance has an
    [id] that is truthy, [save()] executes an UPDATE that sets every
    attribute of [attrs] other than [id] and is keyed by id = ?, the id
    bound last; if it has no [id], or an [id] that is falsy, [save()]
    executes an INSERT of all of [attrs].  When the backend runs and
    commits that statement, [save()] returns [True]. *)
Theorem save_dispatches_on_truthy_id m s :
  let attrs := public_attrs m in
  let nonkey := filter not_id attrs in
  (forall id,
     dict_get "id" (attributes m) = Some id -> truthy id = true ->
     save_statement m =
       ("UPDATE " ++ tablename m ++ " SET "
          ++ str_join ", " (map (fun kv => fst kv ++ " = ?") nonkey)
          ++ " WHERE id = ?",
        (map snd nonkey ++ [id])%list))
  /\ (dict_get "id" (attributes m) = None
       \/ (exists id, dict_get "id" (attributes m) = Some id
                      /\ truthy id = false) ->
      save_statement m =
        ("INSERT INTO " ++ tablename m ++ " ("
           ++ str_join ", " (map fst attrs) ++ ") VALUES ("
           ++ str_join ", " (map (fun _ => "?") attrs) ++ ")",
         map snd attrs))
  /\ (forall st1 cur st2,
        is_closed (acquired s) (handles s) = false ->
        cursor_execute (store s) (fst (save_statement m))
                       (snd (save_statement m)) = (st1, Ok cur) ->
        conn_commit st1 = (st2, Ok tt) ->
        exists s',
          save m s = (s', Ok true)
          /\ store s' = st2
          /\ QueryCache.cache (cache (db s')) = []).
Proof.
  intros attrs nonkey. repeat split.
  - intros id Hid Htr. unfold save_statement. rewrite Hid, Htr.
    fold attrs. rewrite filter_keys_not_id, map_map. reflexivity.
  - intros [Hnone|(id & Hid & Hfalse)]; unfold save_statement.
    + rewrite Hnone. reflexivity.
    + rewrite Hid, Hfalse. reflexivity.
  - intros st1 cur st2 Hopen Hexec Hcommit. unfold save.
    destruct (save_statement m) as [sql values]. simpl in Hexec.
    rewrite (write_then_clear s _ _ st1 cur st2 Hopen Hexec Hcommit).
    eexists. split; [reflexivity |]. simpl. split; reflexivity.
Qed.

(** What [execute] does when the statement or the commit raises, on an
    open connection: the exception is the result, the store is the one the
    backend left, the connection is back, the cache is as before. *)
Lemma execute_raises s sql params :
  is_closed (acquired s) (handles s) = false ->
  (forall st1 e,
     cursor_execute (store s) sql params = (st1, Raise e) ->
     execute sql params s =
       (mkState st1 (fst (released s))
                (Database.mk (snd (released s)) (cache (db s)) (tables (db s))),
        Raise e))
  /\ (forall st1 cur st2 e,
        cursor_execute (store s) sql params = (st1, Ok cur) ->
        conn_commit st1 = (st2, Raise e) ->
        execute sql params s =
          (mkState st2 (fst (released s))
                   (Database.mk (snd (released s)) (cache (db s)) (tables (db s))),
           Raise e)).
Proof.
  intros Hopen. unfold acquired, is_closed in Hopen.
  pose proof (get_connection_closed (handles s) (pool (db s))) as Hcl.
  unfold execute, bind, try_finally, get_connection, return_connection,
    conn_execute, commit, ret, released.
  destruct (ConnectionPool.get_connection (handles s) (pool (db s)))
    as [[h p] conn].
  simpl in *. unfold is_closed. rewrite Hcl, Hopen. split.
  - intros st1 e Hexec. rewrite Hexec. simpl.
    destruct (ConnectionPool.return_connection conn h p). reflexivity.
  - intros st1 cur st2 e Hexec Hcommit. rewrite Hexec. simpl.
    rewrite Hcl, Hopen, Hcommit. simpl.
    destruct (ConnectionPool.return_connection conn h p). reflexivity.
Qed.

(** C1, as the code has it.  [execute] takes a connection from the pool and
    gives it back on every path, and it leaves the query cache exactly as
    it was on every path.  On an open connection it runs the statement on
    the store and commits: when both succeed it returns the cursor and the
    store is the committed one; when the statement raises, nothing is
    committed and the exception is the result; when the commit raises, that
    exception is the result.  The cache is emptied by the callers: when
    their [execute] succeeds, [save()], [delete()] and [create_table]
    call [cache.clear()] on the state [execute] left and end with an empty
    cache. *)
Theorem execute_keeps_cache_writers_clear s sql params :
  cache (db (fst (execute sql params s))) = cache (db s)
  /\ pool_view (fst (execute sql params s)) = released s
  /\ (forall st1 cur st2,
        is_closed (acquired s) (handles s) = false ->
        cursor_execute (store s) sql params = (st1, Ok cur) ->
        conn_commit st1 = (st2, Ok tt) ->
        execute sql params s =
          (mkState st2 (fst (released s))
                   (Database.mk (snd (released s)) (cache (db s)) (tables (db s))),
           Ok cur))
  /\ (forall st1 e,
        is_closed (acquired s) (handles s) = false ->
        cursor_execute (store s) sql params = (st1, Raise e) ->
        execute sql params s =
          (mkState st1 (fst (released s))
                   (Database.mk (snd (released s)) (cache (db s)) (tables (db s))),
           Raise e))
  /\ (forall st1 cur st2 e,
        is_closed (acquired s) (handles s) = false ->
        cursor_execute (store s) sql params = (st1, Ok cur) ->
        conn_commit st1 = (st2, Raise e) ->
        execute sql params s =
          (mkState st2 (fst (released s))
                   (Database.mk (snd (released s)) (cache (db s)) (tables (db s))),
           Raise e))
  /\ (forall m s1 cur,
        execute (fst (save_statement m)) (snd (save_statement m)) s
          = (s1, Ok cur) ->
        exists s2, save m s = (s2, Ok true)
                   /\ s2 = with_cache (QueryCache.clear (cache (db s1))) s1
                   /\ QueryCache.cache (cache (db s2)) = []
                   /\ QueryCache.timestamps (cache (db s2)) = [])
  /\ (forall m id s1 cur,
        dict_get "id" (attributes m) = Some id ->
        execute ("DELETE FROM " ++ tablename m ++ " WHERE id = ?") [id] s
          = (s1, Ok cur) ->
        exists s2, delete m s = (s2, Ok true)
                   /\ s2 = with_cache (QueryCache.clear (cache (db s1))) s1
                   /\ QueryCache.cache (cache (db s2)) = []
                   /\ QueryCache.timestamps (cache (db s2)) = [])
  /\ (forall table_name columns s1 cur,
        execute (create_table_sql table_name columns) [] s = (s1, Ok cur) ->
        exists s2, create_table table_name columns s = (s2, Ok tt)
                   /\ s2 = with_cache (QueryCache.clear (cache (db s1))) s1
                   /\ QueryCache.cache (cache (db s2)) = []
                   /\ QueryCache.timestamps (cache (db s2)) = []).
Proof.
  split; [apply execute_cache |].
  split; [apply execute_pool_view |].
  split; [intros st1 cur st2; apply execute_success |].
  split; [intros st1 e Hopen; apply (execute_raises s sql params Hopen) |].
  split; [intros st1 cur st2 e Hopen; apply (execute_raises s sql params Hopen) |].
  split; [| split].
  - intros m s1 cur Hexec. unfold save.
    destruct (save_statement m) as [q values]. simpl in Hexec.
    unfold bind. rewrite Hexec. simpl.
    eexists. split; [reflexivity |]. split; [reflexivity |]. split; reflexivity.
  - intros m id s1 cur Hid Hexec. unfold delete. rewrite Hid.
    unfold bind. rewrite Hexec. simpl.
    eexists. split; [reflexivity |]. split; [reflexivity |]. split; reflexivity.
  - intros table_name columns s1 cur Hexec. unfold create_table.
    unfold bind. rewrite Hexec. simpl.
    eexists. split; [reflexivity |]. split; [reflexivity |]. split; reflexivity.
Qed.
End WithBackend.

(** C1 as stated fails: an [execute] that succeeds leaves the cached read
    in the cache. *)
Lemma execute_leaves_cached_read :
  let s' := execute (B := scripted (fun _ => Ok []))
                    "UPDATE users SET name = ? WHERE id = ?" [PStr "B"; PInt 1]
                    one_cached in
  snd s' = Ok []
  /\ store (fst s') = [("UPDATE users SET name = ? WHERE id = ?", [PStr "B"; PInt 1])]
  /\ QueryCache.cache (cache (db (fst s')))
     = [("SELECT * FROM users:()", PList [PDict [("id", PInt 1)]])]
  /\ QueryCache.cache (cache (db (fst s'))) <> [].
Proof. repeat split. discriminate. Qed.

(** On a database with one cached read: an UPDATE sent through [execute]
    is run and committed on the store, with pool and cache as before; a
    [save()] of a new user runs the INSERT and empties the cache. *)
Lemma execute_keeps_cache_writers_clear_witness :
  let B := scripted (fun _ => Ok []) in
  let m := Model.mk "users" [("name", PStr "A"); ("email", PStr "a@x.com")] in
  execute (B := B) "UPDATE users SET name = ? WHERE id = ?" [PStr "B"; PInt 1]
          one_cached
    = (mkState [("UPDATE users SET name = ? WHERE id = ?", [PStr "B"; PInt 1])]
               (handles one_cached) (db one_cached),
       Ok [])
  /\ exists s2,
       save (B := B) m one_cached = (s2, Ok true)
       /\ store s2 = [("INSERT INTO users (name, email) VALUES (?, ?)",
                       [PStr "A"; PStr "a@x.com"])]
       /\ QueryCache.cache (cache (db s2)) = []
       /\ QueryCache.timestamps (cache (db s2)) = [].
Proof.
  intros B m. split.
  - destruct (execute_keeps_cache_writers_clear
                (R := plain_runtime) (B := B) one_cached
                "UPDATE users SET name = ? WHERE id = ?" [PStr "B"; PInt 1])
      as (_ & _ & Hrun & _).
    apply (Hrun [("UPDATE users SET name = ? WHERE id = ?", [PStr "B"; PInt 1])] []
                [("UPDATE users SET name = ? WHERE id = ?", [PStr "B"; PInt 1])]);
      reflexivity.
  - destruct (execute_keeps_cache_writers_clear
                (R := plain_runtime) (B := B) one_cached "" [])
      as (_ & _ & _ & _ & _ & Hsave & _).
    destruct (Hsave m
                (fst (execute (B := B) (fst (save_statement m))
                              (snd (save_statement m)) one_cached))
                [] eq_refl) as (s2 & Hs & Heq & Hc & Ht).
    exists s2. split; [exact Hs |]. split; [| split; assumption].
    rewrite Heq. reflexivity.
Defined.

(** Deleting user 7 from a fresh database. *)
Lemma delete_requires_id_witness :
  let s0 := init "deepcode.db" [] (mkHandles 0 []) in
  delete (B := scripted (fun _ => Ok []))
         (Model.mk "users" [("name", PStr "A")]) s0 = (s0, Ok false)
  /\ exists s',
       delete (B := scripted (fun _ => Ok []))
              (Model.mk "users" [("id", PInt 7); ("name", PStr "A")]) s0
         = (s', Ok true)
       /\ store s' = [("DELETE FROM users WHERE id = ?", [PInt 7])].
Proof.
  intros s0. split.
  - apply (delete_requires_id (B := scripted (fun _ => Ok []))
             (Model.mk "users" [("name", PStr "A")]) s0).
    reflexivity.
  - destruct (delete_requires_id (B := scripted (fun _ => Ok []))
                (Model.mk "users" [("id", PInt 7); ("name", PStr "A")]) s0)
      as (_ & _ & Hdel).
    destruct (Hdel (PInt 7) [("DELETE FROM users WHERE id = ?", [PInt 7])] []
                   [("DELETE FROM users WHERE id = ?", [PInt 7])]
                   eq_refl eq_refl eq_refl eq_refl)
      as (s' & Hd & Hstore & _).
    exists s'. split; [exact Hd | exact Hstore].
Defined.

(** An instance with id 7 is updated, one with id 0 is inserted. *)
Lemma save_dispatches_on_truthy_id_witness :
  save_statement (Model.mk "users" [("id", PInt 7); ("name", PStr "A"); ("email", PStr "a@x.com")])
    = ("UPDATE users SET name = ?, email = ? WHERE id = ?",
       [PStr "A"; PStr "a@x.com"; PInt 7])
  /\ save_statement (Model.mk "users" [("id", PInt 0); ("name", PStr "A")])
     = ("INSERT INTO users (id, name) VALUES (?, ?)", [PInt 0; PStr "A"]).
Proof.
  split.
  - pose proof (save_dispatches_on_truthy_id
                  (B := scripted (fun _ => Ok []))
                  (Model.mk "users" [("id", PInt 7); ("name", PStr "A"); ("email", PStr "a@x.com")])
                  (init "deepcode.db" [] (mkHandles 0 []))) as H.
    cbv zeta in H. destruct H as (Hupdate & _).
    apply (Hupdate (PInt 7)); reflexivity.
  - pose proof (save_dispatches_on_truthy_id
                  (B := scripted (fun _ => Ok []))
                  (Model.mk "users" [("id", PInt 0); ("name", PStr "A")])
                  (init "deepcode.db" [] (mkHandles 0 []))) as H.
    cbv zeta in H. destruct H as (_ & Hinsert & _).
    apply Hinsert. right. exists (PInt 0). split; reflexivity.
Defined.

(** C6 as stated fails: an attribute whose name starts with an underscore
    is present on the instance and is left out of the INSERT. *)
Lemma save_skips_underscore_attribute :
  let m := Model.mk "users" [("name", PStr "A"); ("_tmp", PInt 1)] in
  dict_get "_tmp" (attributes m) = Some (PInt 1)
  /\ save_statement m = ("INSERT INTO users (name) VALUES (?)", [PStr "A"])
  /\ snd (save_statement m) <> dict_values (attributes m).
Proof. repeat split. discriminate. Qed.

End ModelFacts.

(** ** Query cache: round trip, runs, extremes *)

Module QueryCacheMore.
Import QueryCache CacheRun.

Lemma timedelta_seconds_bounds (a b : datetime) :
  0 <= timedelta_seconds a b < 86400.
Proof.
  unfold timedelta_seconds, us_per_day, us_per_second.
  pose proof (Z.mod_pos_bound (a - b) (86400 * 1000000) ltac:(lia)) as Hm.
  split.
  - apply Z.div_pos; lia.
  - apply Z.div_lt_upper_bound; lia.
Qed.

(** What a [set] that does not raise leaves behind. *)
Lemma set_outcome (key : string) (value : pyval) (now : datetime) (c : t) :
  wf c -> 1 <= max_size c ->
  exists c',
    set key value now c = (c', Ok tt)
    /\ wf c'
    /\ max_size c' = max_size c
    /\ ttl c' = ttl c
    /\ dict_get key (cache c') = Some value
    /\ dict_get key (timestamps c') = Some now
    /\ size c' <= Z.max (size c) (max_size c).
Proof.
  intros Hwf Hpos. pose proof (QueryCacheFacts.set_wf key value now c Hwf) as Hwf'.
  unfold set, size in *.
  destruct (Z.geb_spec (Z.of_nat (List.length (cache c))) (max_size c)) as [Hfull|Hroom].
  - assert (Hne : timestamps c <> []).
    { destruct Hwf as [Hk _]. intros He.
      assert (Hl : List.length (dict_keys (cache c)) = List.length (dict_keys (timestamps c)))
        by now rewrite Hk.
      unfold dict_keys in Hl. rewrite !length_map, He in Hl. simpl in Hl. lia. }
    destruct (QueryCacheFacts.min_key_nonempty _ Hne) as (ko & to & Hmin).
    rewrite Hmin in *.
    destruct (QueryCacheFacts.min_key_first_smallest _ _ _ Hmin) as (pre & post & Hts & _).
    assert (Hin : dict_get ko (cache c) <> None).
    { apply dict_get_in_keys. destruct Hwf as [-> _]. rewrite Hts.
      unfold dict_keys. rewrite map_app. apply in_or_app. right. now left. }
    pose proof (dict_length_del ko (cache c) Hin) as Hdel.
    pose proof (dict_length_set key value (dict_del ko (cache c))) as Hset.
    unfold dict_mem in *. destruct (dict_get ko (cache c)); [| congruence].
    eexists. split; [reflexivity |]. simpl in *.
    split; [exact Hwf' |]. repeat split; try apply dict_get_set_same.
    destruct (dict_get key (dict_del ko (cache c))); lia.
  - pose proof (dict_length_set key value (cache c)) as Hset.
    eexists. split; [reflexivity |]. simpl in *.
    split; [exact Hwf' |]. repeat split; try apply dict_get_set_same.
    unfold dict_mem in Hset. destruct (dict_get key (cache c)); lia.
Qed.

(** X1.  A value stored by [set] is returned by a later [get] of the same
    key, as long as the age at the [get] is below one day and, in whole
    seconds, at most [ttl]; the [get] leaves the cache as [set] left it. *)
Theorem set_then_get (key : string) (value : pyval) (t_set now : datetime) (c : t) :
  wf c ->
  1 <= max_size c ->
  0 <= now - t_set < us_per_day ->
  (now - t_set) / us_per_second <= ttl c ->
  exists c',
    set key value t_set c = (c', Ok tt)
    /\ get key now c' = (c', Ok value).
Proof.
  intros Hwf Hpos Hage Hfresh.
  destruct (set_outcome key value t_set c Hwf Hpos)
    as (c' & Hset & _ & _ & Httl & Hv & Hts & _).
  exists c'. split; [exact Hset |].
  unfold get. rewrite Hv, Hts, Httl.
  rewrite (QueryCacheFacts.timedelta_seconds_within_day _ _ Hage).
  destruct (Z.gtb_spec ((now - t_set) / us_per_second) (ttl c)); [lia | reflexivity].
Qed.

Lemma set_then_get_witness :
  exists c',
    set "q" (PInt 7) 1000000 (init 1000 3600) = (c', Ok tt)
    /\ get "q" 61000000 c' = (c', Ok (PInt 7)).
Proof.
  apply (set_then_get "q" (PInt 7) 1000000 61000000 (init 1000 3600)).
  - apply QueryCacheFacts.init_wf.
  - simpl; lia.
  - vm_compute; split; congruence.
  - vm_compute; congruence.
Defined.

Lemma get_keeps_fields (key : string) (now : datetime) (c : t) :
  max_size (fst (get key now c)) = max_size c
  /\ ttl (fst (get key now c)) = ttl c
  /\ size (fst (get key now c)) <= size c.
Proof.
  unfold get, size.
  destruct (dict_get key (cache c)) as [v|] eqn:Hv; [| simpl; lia].
  destruct (dict_get key (timestamps c)); [| simpl; lia].
  destruct (_ >? _); simpl; [| lia].
  assert (Hin : dict_get key (cache c) <> None) by congruence.
  pose proof (dict_length_del key (cache c) Hin). lia.
Qed.

(** The state a cache of positive capacity is in after any run. *)
Lemma run_invariant (ops : list op) : forall c,
  wf c -> 1 <= max_size c -> size c <= max_size c ->
  wf (run ops c)
  /\ max_size (run ops c) = max_size c
  /\ ttl (run ops c) = ttl c
  /\ size (run ops c) <= max_size c.
Proof.
  unfold run. induction ops as [|o ops IH]; intros c Hwf Hpos Hsz; simpl.
  - split; [exact Hwf | split; [reflexivity | split; [reflexivity | exact Hsz]]].
  - assert (Hstep : wf (step c o) /\ max_size (step c o) = max_size c
                    /\ ttl (step c o) = ttl c /\ size (step c o) <= max_size c).
    { destruct o as [key now|key value now|]; simpl.
      - destruct (get_keeps_fields key now c) as (Hm & Ht & Hs).
        split; [now apply QueryCacheFacts.get_wf |].
        split; [exact Hm | split; [exact Ht | lia]].
      - destruct (set_outcome key value now c Hwf Hpos)
          as (c' & Hset & Hwf' & Hm & Ht & _ & _ & Hs).
        rewrite Hset. simpl.
        split; [exact Hwf' | split; [exact Hm | split; [exact Ht | lia]]].
      - split; [apply QueryCacheFacts.clear_wf |].
        split; [reflexivity | split; [reflexivity | unfold size; simpl; lia]]. }
    destruct Hstep as (Hwf1 & Hm1 & Ht1 & Hs1).
    destruct (IH (step c o)) as (Hw & Hm & Ht & Hs); [exact Hwf1 | lia | lia |].
    rewrite Hm1 in Hm, Hs. rewrite Ht1 in Ht.
    split; [exact Hw | split; [exact Hm | split; [exact Ht | exact Hs]]].
Qed.

(** X2.  A cache created with a capacity of at least 1 and used through
    [get], [set] and [clear] in any order keeps the two dictionaries in
    step, never holds more than [max_size] entries, and none of its calls
    raises: [get] always returns and [set] always stores. *)
Theorem run_from_init_never_raises (ops : list op) (m l : Z) :
  1 <= m ->
  let c := run ops (init m l) in
  wf c
  /\ size c <= m
  /\ (forall key now, exists v, snd (get key now c) = Ok v)
  /\ (forall key value now, snd (set key value now c) = Ok tt).
Proof.
  intros Hm c.
  destruct (run_invariant ops (init m l)) as (Hwf & Hmax & _ & Hsz);
    [apply QueryCacheFacts.init_wf | simpl; lia | unfold size; simpl; lia |].
  fold c in Hwf, Hmax, Hsz. simpl in Hmax, Hsz.
  split; [exact Hwf |]. split; [exact Hsz |]. split.
  - intros key now. unfold get.
    destruct (dict_get key (cache c)) as [v|] eqn:Hv;
      [| exists PNone; reflexivity].
    destruct (QueryCacheFacts.wf_timestamp c key v Hwf Hv) as [ts ->].
    destruct (_ >? _); [exists PNone | exists v]; reflexivity.
  - intros key value now.
    destruct (set_outcome key value now c Hwf) as (c' & -> & _); [lia | reflexivity].
Qed.

Lemma run_from_init_never_raises_witness :
  let c := run [OpSet "a" (PInt 1) 0; OpSet "b" (PInt 2) 5; OpGet "a" 9; OpSet "c" (PInt 3) 7]
               (init 2 3600) in
  size c <= 2 /\ snd (set "d" (PInt 4) 8 c) = Ok tt.
Proof.
  intros c.
  destruct (run_from_init_never_raises
              [OpSet "a" (PInt 1) 0; OpSet "b" (PInt 2) 5; OpGet "a" 9; OpSet "c" (PInt 3) 7]
              2 3600) as (_ & Hsz & _ & Hset); [lia |].
  split; [exact Hsz | apply Hset].
Defined.

(** X3.  A cache created with a capacity of 0 or less never stores
    anything: whatever is called on it, it stays as created, and every
    [set] raises [ValueError] (from [min] on the empty timestamps). *)
Theorem nonpositive_capacity_stores_nothing (ops : list op) (m l : Z) :
  m <= 0 ->
  run ops (init m l) = init m l
  /\ forall key value now,
       set key value now (run ops (init m l)) = (init m l, Raise ValueError).
Proof.
  intros Hm.
  assert (Hset : forall key value now,
             set key value now (init m l) = (init m l, Raise ValueError)).
  { intros key value now. unfold set, init. simpl.
    destruct (Z.geb_spec 0 m); [reflexivity | lia]. }
  assert (Hrun : run ops (init m l) = init m l).
  { unfold run. induction ops as [|o ops IH]; simpl; [reflexivity |].
    destruct o as [key now|key value now|]; simpl.
    - exact IH.
    - rewrite Hset. exact IH.
    - exact IH. }
  split; [exact Hrun |]. intros key value now. rewrite Hrun. apply Hset.
Qed.

Lemma nonpositive_capacity_stores_nothing_witness :
  run [OpSet "a" (PInt 1) 0; OpGet "a" 1; OpClear; OpSet "b" (PInt 2) 2] (init 0 3600)
    = init 0 3600.
Proof.
  apply (nonpositive_capacity_stores_nothing
           [OpSet "a" (PInt 1) 0; OpGet "a" 1; OpClear; OpSet "b" (PInt 2) 2] 0 3600).
  lia.
Defined.

(** X4.  [set] on a full cache evicts the oldest entry even when the key is
    already cached: if the oldest entry is another key, that entry is lost
    and the cache ends one entry short of full; if the oldest entry is the
    key itself, the cache stays full. *)
Theorem set_existing_key_at_capacity
        (key : string) (value : pyval) (now : datetime) (c : t) :
  wf c ->
  1 <= max_size c ->
  size c = max_size c ->
  dict_get key (cache c) <> None ->
  exists c' oldest t_old,
    set key value now c = (c', Ok tt)
    /\ min_key (timestamps c) = Some (oldest, t_old)
    /\ dict_get key (cache c') = Some value
    /\ (oldest <> key ->
          size c' = size c - 1 /\ dict_get oldest (cache c') = None)
    /\ (oldest = key -> size c' = size c).
Proof.
  intros Hwf Hpos Hfull Hkey. unfold set, size in *.
  destruct (Z.geb_spec (Z.of_nat (List.length (cache c))) (max_size c)); [| lia].
  assert (Hne : timestamps c <> []).
  { destruct Hwf as [Hk _]. intros He.
    assert (Hl : List.length (dict_keys (cache c)) = List.length (dict_keys (timestamps c)))
      by now rewrite Hk.
    unfold dict_keys in Hl. rewrite !length_map, He in Hl. simpl in Hl. lia. }
  destruct (QueryCacheFacts.min_key_nonempty _ Hne) as (ko & to & Hmin).
  rewrite Hmin.
  destruct (QueryCacheFacts.min_key_first_smallest _ _ _ Hmin) as (pre & post & Hts & _).
  assert (Hin : dict_get ko (cache c) <> None).
  { apply dict_get_in_keys. destruct Hwf as [-> _]. rewrite Hts.
    unfold dict_keys. rewrite map_app. apply in_or_app. right. now left. }
  pose proof (dict_length_del ko (cache c) Hin) as Hdel.
  pose proof (dict_length_set key value (dict_del ko (cache c))) as Hset.
  unfold dict_mem in *.
  destruct (dict_get ko (cache c)) as [vo|] eqn:Hvo; [| congruence].
  exists (mk (dict_set key value (dict_del ko (cache c))) (max_size c) (ttl c)
             (dict_set key now (dict_del ko (timestamps c)))), ko, to.
  split; [reflexivity |]. split; [reflexivity |]. simpl.
  split; [apply dict_get_set_same |]. split.
  - intros Hne'. rewrite dict_get_del_other in Hset by congruence.
    destruct (dict_get key (cache c)); [| congruence].
    split; [lia |].
    rewrite dict_get_set_other by exact Hne'.
    apply dict_get_del_same, Hwf.
  - intros ->. rewrite dict_get_del_same in Hset by apply Hwf. lia.
Qed.

Lemma set_existing_key_at_capacity_witness :
  exists c',
    set "b" (PInt 9) 7 (mk [("a", PInt 1); ("b", PInt 2)] 2 3600 [("a", 3); ("b", 5)])
      = (c', Ok tt)
    /\ cache c' = [("b", PInt 9)].
Proof.
  destruct (set_existing_key_at_capacity "b" (PInt 9) 7
              (mk [("a", PInt 1); ("b", PInt 2)] 2 3600 [("a", 3); ("b", 5)]))
    as (c' & oldest & t_old & Hset & _).
  - split; [reflexivity |]. simpl.
    constructor; [simpl; intros [H|[]]; discriminate |].
    constructor; [simpl; tauto | constructor].
  - simpl; lia.
  - reflexivity.
  - simpl; discriminate.
  - exists c'. split; [exact Hset |].
    simpl in Hset. injection Hset as <-. reflexivity.
Defined.

(** X5.  The age test of [get] looks at the seconds field of the age only,
    so it is periodic in whole days: [get] at a time [now] and at any
    number of days before or after [now] does the same to the same cache.
    An entry that has expired is served again a day after it was
    stored. *)
Theorem get_periodic_in_days (key : string) (now : datetime) (k : Z) (c : t) :
  get key (now + k * us_per_day) c = get key now c.
Proof.
  unfold get, timedelta_seconds.
  destruct (dict_get key (cache c)); [| reflexivity].
  destruct (dict_get key (timestamps c)) as [ts|]; [| reflexivity].
  replace (now + k * us_per_day - ts) with (now - ts + k * us_per_day) by lia.
  rewrite Z.mod_add by (unfold us_per_day, us_per_second; lia).
  reflexivity.
Qed.

(** X6.  With [ttl] of 86399 seconds or more nothing ever expires: [get]
    never changes the cache, whatever the time. *)
Theorem get_never_expires_with_ttl_of_a_day (key : string) (now : datetime) (c : t) :
  86399 <= ttl c ->
  fst (get key now c) = c.
Proof.
  intros Httl. unfold get.
  destruct (dict_get key (cache c)); [| reflexivity].
  destruct (dict_get key (timestamps c)) as [ts|]; [| reflexivity].
  pose proof (timedelta_seconds_bounds now ts).
  destruct (Z.gtb_spec (timedelta_seconds now ts) (ttl c)); [lia | reflexivity].
Qed.

Lemma get_never_expires_with_ttl_of_a_day_witness :
  fst (get "q" (1000 * us_per_day) (mk [("q", PInt 7)] 10 86400 [("q", 0)]))
    = mk [("q", PInt 7)] 10 86400 [("q", 0)].
Proof.
  apply (get_never_expires_with_ttl_of_a_day "q" (1000 * us_per_day)
           (mk [("q", PInt 7)] 10 86400 [("q", 0)])).
  simpl; lia.
Defined.

(** X7.  With a negative [ttl] nothing is ever served: [get] of a cached key
    removes the entry and returns [None], at any time. *)
Theorem get_never_serves_with_negative_ttl (key : string) (now : datetime) (c : t) :
  wf c ->
  ttl c < 0 ->
  exists c',
    get key now c = (c', Ok PNone)
    /\ dict_get key (cache c') = None
    /\ dict_get key (timestamps c') = None.
Proof.
  intros Hwf Httl. unfold get.
  destruct (dict_get key (cache c)) as [v|] eqn:Hv.
  - destruct (QueryCacheFacts.wf_timestamp c key v Hwf Hv) as [ts Hts].
    rewrite Hts. pose proof (timedelta_seconds_bounds now ts).
    destruct (Z.gtb_spec (timedelta_seconds now ts) (ttl c)); [| lia].
    eexists. split; [reflexivity |]. simpl. destruct Hwf as [Hk Hnd].
    split; apply dict_get_del_same; [exact Hnd | now rewrite <- Hk].
  - exists c. split; [reflexivity |]. split; [exact Hv |].
    apply dict_get_none_keys. destruct Hwf as [<- _].
    now apply dict_get_none_keys.
Qed.

Lemma get_never_serves_with_negative_ttl_witness :
  exists c',
    get "q" 0 (mk [("q", PInt 7)] 10 (-1) [("q", 0)]) = (c', Ok PNone)
    /\ dict_get "q" (cache c') = None.
Proof.
  destruct (get_never_serves_with_negative_ttl "q" 0
              (mk [("q", PInt 7)] 10 (-1) [("q", 0)]))
    as (c' & Hget & Hnone & _).
  - split; [reflexivity |]. simpl. constructor; [simpl; tauto | constructor].
  - simpl; lia.
  - exists c'. split; [exact Hget | exact Hnone].
Defined.

End QueryCacheMore.

(** ** Connection pool: round trips, overflow, distinct hand-outs, closing *)

Module ConnectionPoolMore.
Import ConnectionPool PoolClients.

(** X8.  Reuse is last in, first out: after a release that found room, the
    next acquire hands out the connection just released, and the pool is
    back to the idle connections it had before the release. *)
Theorem release_then_acquire (conn : Conn) (h : Handles) (p : t) :
  idle p < pool_size p ->
  get_connection (fst (return_connection conn h p))
                 (snd (return_connection conn h p))
  = (h, mk (database p) (pool_size p) (connections p), conn).
Proof.
  intros Hroom. unfold return_connection.
  destruct (Z.ltb_spec (idle p) (pool_size p)); [| lia].
  simpl. unfold get_connection. simpl. now rewrite list_pop_snoc.
Qed.

Lemma release_then_acquire_witness :
  get_connection
    (fst (return_connection (mkConn 4 true) (mkHandles 5 []) (mk "deepcode.db" 5 [])))
    (snd (return_connection (mkConn 4 true) (mkHandles 5 []) (mk "deepcode.db" 5 [])))
  = (mkHandles 5 [], mk "deepcode.db" 5 [], mkConn 4 true).
Proof.
  apply (release_then_acquire (mkConn 4 true) (mkHandles 5 []) (mk "deepcode.db" 5 [])).
  vm_compute; reflexivity.
Defined.

(** Taking the last idle connection and giving it back restores the
    pool. *)
Lemma acquire_then_release (h : Handles) (p : t) :
  connections p <> [] ->
  idle p <= pool_size p ->
  let '(h1, p1, conn) := get_connection h p in
  return_connection conn h1 p1
  = (h, mk (database p) (pool_size p) (connections p)).
Proof.
  intros Hne Hle. unfold get_connection.
  destruct (list_pop (connections p)) as [[rest conn]|] eqn:E.
  - apply list_pop_some in E. unfold return_connection, idle in *. simpl.
    rewrite E, length_app in Hle. simpl in Hle.
    destruct (Z.ltb_spec (Z.of_nat (List.length rest)) (pool_size p)); [| lia].
    now rewrite E.
  - apply list_pop_none in E. contradiction.
Qed.

(** X9.  On an empty pool [get_connection] opens a fresh connection, without
    the [row_factory] the connections of the initial pool have, and leaves
    the pool empty.  On release that connection is treated like any other,
    by the room there is at that moment: in whatever state the pool is by
    then, it is put into the pool if fewer than [pool_size] connections are
    idle and closed otherwise.  So, released while the pool is still empty,
    it is pooled when the capacity is 1 or more and closed when the
    capacity is 0 or less; released after the pool has filled up again, it
    is closed. *)
Theorem overflow_connection_is_pooled (h : Handles) (p : t) :
  connections p = [] ->
  let fresh := mkConn (next_conn h) false in
  let h1 := mkHandles (S (next_conn h)) (closed h) in
  get_connection h p = (h1, p, fresh)
  /\ (forall h' p',
        idle p' < pool_size p' ->
        return_connection fresh h' p'
        = (h', mk (database p') (pool_size p') (connections p' ++ [fresh])))
  /\ (forall h' p',
        pool_size p' <= idle p' ->
        return_connection fresh h' p' = (conn_close fresh h', p')
        /\ is_closed fresh (fst (return_connection fresh h' p')) = true)
  /\ (1 <= pool_size p ->
        return_connection fresh h1 p = (h1, mk (database p) (pool_size p) [fresh]))
  /\ (pool_size p <= 0 ->
        return_connection fresh h1 p = (conn_close fresh h1, p)).
Proof.
  intros Hempty fresh h1.
  assert (Hroom : forall h' p',
             idle p' < pool_size p' ->
             return_connection fresh h' p'
             = (h', mk (database p') (pool_size p') (connections p' ++ [fresh]))).
  { intros h' p' Hlt. unfold return_connection.
    destruct (Z.ltb_spec (idle p') (pool_size p')); [reflexivity | lia]. }
  assert (Hfull : forall h' p',
             pool_size p' <= idle p' ->
             return_connection fresh h' p' = (conn_close fresh h', p')).
  { intros h' p' Hge. unfold return_connection.
    destruct (Z.ltb_spec (idle p') (pool_size p')); [lia | reflexivity]. }
  assert (Hidle : idle p = 0) by (unfold idle; now rewrite Hempty).
  split; [unfold get_connection; now rewrite Hempty |].
  split; [exact Hroom |]. split; [| split].
  - intros h' p' Hge. rewrite (Hfull h' p' Hge). split; [reflexivity |].
    unfold is_closed, conn_close. simpl. now rewrite Nat.eqb_refl.
  - intros Hsize. rewrite Hroom by lia. now rewrite Hempty.
  - intros Hsize. apply Hfull. lia.
Qed.

(** A pool of capacity 1, emptied: a second acquire opens connection 1.
    Released while the pool is empty, connection 1 is pooled; released
    after connection 0 has come back, it is closed. *)
Lemma overflow_connection_is_pooled_witness :
  let p := mk "deepcode.db" 1 [] in
  let h := mkHandles 1 [] in
  get_connection h p = (mkHandles 2 [], p, mkConn 1 false)
  /\ return_connection (mkConn 1 false) (mkHandles 2 []) p
     = (mkHandles 2 [], mk "deepcode.db" 1 [mkConn 1 false])
  /\ return_connection (mkConn 1 false) (mkHandles 2 [])
                       (mk "deepcode.db" 1 [mkConn 0 true])
     = (mkHandles 2 [1%nat], mk "deepcode.db" 1 [mkConn 0 true]).
Proof.
  intros p h.
  pose proof (overflow_connection_is_pooled h p eq_refl) as H.
  cbv zeta in H. destruct H as (Hget & _ & Hfull & Hpooled & _).
  split; [exact Hget |]. split.
  - apply Hpooled. simpl; lia.
  - apply (Hfull (mkHandles 2 []) (mk "deepcode.db" 1 [mkConn 0 true])).
    vm_compute; congruence.
Defined.

Lemma initialize_pool_distinct (n : nat) : forall h p,
  distinct h p -> distinct (fst (initialize_pool n h p)) (snd (initialize_pool n h p)).
Proof.
  induction n as [|n IH]; intros h p [Hnd Hlt]; simpl; [split; assumption |].
  apply IH. split; simpl.
  - rewrite map_app. simpl. apply NoDup_app; auto.
    + constructor; [simpl; tauto | constructor].
    + intros x Hx [<-|[]]. apply in_map_iff in Hx as (c & Hc & Hin).
      rewrite Forall_forall in Hlt. apply Hlt in Hin. lia.
  - apply Forall_app. split.
    + eapply Forall_impl; [| exact Hlt]. simpl. intros c Hc. lia.
    + constructor; [simpl; lia | constructor].
Qed.

Lemma init_distinct (db : string) (size : Z) (h : Handles) :
  distinct (fst (init db size h)) (snd (init db size h)).
Proof.
  apply initialize_pool_distinct. split; simpl; constructor.
Qed.

(** Every connection handed out was idle in the pool or is new, and no
    handle is handed out twice. *)
Lemma acquire_many_distinct (n : nat) : forall h p,
  distinct h p ->
  NoDup (map conn_id (acquire_many n h p))
  /\ forall c, In c (acquire_many n h p) ->
               In (conn_id c) (map conn_id (connections p))
               \/ (next_conn h <= conn_id c)%nat.
Proof.
  induction n as [|n IH]; intros h p [Hnd Hlt]; simpl.
  - split; [constructor | tauto].
  - unfold get_connection.
    destruct (list_pop (connections p)) as [[rest conn]|] eqn:E.
    + apply list_pop_some in E. rewrite E in Hnd, Hlt.
      rewrite map_app in Hnd. simpl in Hnd.
      apply Forall_app in Hlt as [Hlt_rest Hlt_conn].
      inversion Hlt_conn as [|? ? Hconn _]; subst.
      destruct (IH h (mk (database p) (pool_size p) rest)) as [Hnd' Hin'].
      { split; simpl; [| exact Hlt_rest].
        apply NoDup_app_remove_r in Hnd. exact Hnd. }
      simpl in Hin'. split.
      * simpl. constructor; [| exact Hnd'].
        intros Hin. apply in_map_iff in Hin as (c & Hid & Hc).
        destruct (Hin' c Hc) as [Hrest|Hnew]; [| lia].
        rewrite Hid in Hrest.
        apply NoDup_remove_2 in Hnd. apply Hnd. rewrite app_nil_r. exact Hrest.
      * intros c [<-|Hc].
        -- left. rewrite E, map_app. apply in_or_app. right. now left.
        -- destruct (Hin' c Hc) as [Hrest|Hnew]; [left | now right].
           rewrite E, map_app. apply in_or_app. now left.
    + apply list_pop_none in E. simpl.
      destruct (IH (mkHandles (S (next_conn h)) (closed h)) p) as [Hnd' Hin'].
      { split; [exact Hnd |]. eapply Forall_impl; [| exact Hlt].
        simpl. intros c Hc. lia. }
      rewrite E in Hin'. simpl in Hin'. split.
      * simpl. constructor; [| exact Hnd'].
        intros Hin. apply in_map_iff in Hin as (c & Hid & Hc).
        destruct (Hin' c Hc) as [[]|Hnew]. lia.
      * intros c [<-|Hc]; [right; simpl; lia |].
        destruct (Hin' c Hc) as [[]|Hnew]. right. lia.
Qed.

(** X10.  From a freshly created pool, any number of acquires in a row hand
    out connections with pairwise different handles: while none is
    released, no connection is given to two callers. *)
Theorem acquires_hand_out_distinct_connections
        (n : nat) (db : string) (size : Z) (h : Handles) :
  NoDup (map conn_id (acquire_many n (fst (init db size h)) (snd (init db size h)))).
Proof.
  apply acquire_many_distinct, init_distinct.
Qed.

(** X11.  Nothing stops a double release: when there is room for two, a
    connection released twice sits in the pool twice, and the next two
    acquires hand out that same connection twice. *)
Theorem double_release_is_handed_out_twice (conn : Conn) (h : Handles) (p : t) :
  idle p + 2 <= pool_size p ->
  let s := run [Release conn; Release conn] (h, p) in
  connections (snd s) = (connections p ++ [conn; conn])%list
  /\ acquire_many 2 (fst s) (snd s) = [conn; conn].
Proof.
  intros Hroom. unfold run. simpl. unfold return_connection, idle in *. simpl.
  destruct (Z.ltb_spec (Z.of_nat (List.length (connections p))) (pool_size p)); [| lia].
  simpl. rewrite length_app. simpl.
  destruct (Z.ltb_spec (Z.of_nat (List.length (connections p) + 1)) (pool_size p)); [| lia].
  simpl. rewrite <- app_assoc. simpl. split; [reflexivity |].
  unfold get_connection. simpl.
  replace (connections p ++ [conn; conn])%list
    with ((connections p ++ [conn]) ++ [conn])%list by now rewrite <- app_assoc.
  rewrite list_pop_snoc. simpl. now rewrite list_pop_snoc.
Qed.

Lemma double_release_is_handed_out_twice_witness :
  acquire_many 2
    (fst (run [Release (mkConn 0 true); Release (mkConn 0 true)]
              (mkHandles 1 [], mk "deepcode.db" 5 [])))
    (snd (run [Release (mkConn 0 true); Release (mkConn 0 true)]
              (mkHandles 1 [], mk "deepcode.db" 5 [])))
  = [mkConn 0 true; mkConn 0 true].
Proof.
  apply (double_release_is_handed_out_twice (mkConn 0 true) (mkHandles 1 [])
           (mk "deepcode.db" 5 [])).
  vm_compute; congruence.
Defined.

Lemma conn_close_keeps_closed (c c' : Conn) (h : Handles) :
  is_closed c h = true -> is_closed c (conn_close c' h) = true.
Proof.
  unfold is_closed, conn_close. simpl. intros ->. apply orb_true_r.
Qed.

Lemma close_all_keeps_closed (conns : list Conn) : forall h c,
  is_closed c h = true ->
  is_closed c (fold_left (fun h c => conn_close c h) conns h) = true.
Proof.
  induction conns as [|c' conns IH]; intros h c Hc; simpl; [exact Hc |].
  apply IH. now apply conn_close_keeps_closed.
Qed.

Lemma close_all_closes_idle (h : Handles) (p : t) (c : Conn) :
  In c (connections p) -> is_closed c (close_all h p) = true.
Proof.
  unfold close_all. generalize h.
  induction (connections p) as [|c' conns IH]; intros h'; simpl; [tauto |].
  intros [<-|Hin]; [| now apply IH].
  apply close_all_keeps_closed. unfold is_closed, conn_close. simpl.
  now rewrite Nat.eqb_refl.
Qed.

(** X12.  [close_all] closes every idle connection and re-opens none, but
    it leaves them all in the pool: the next acquire hands out a closed
    connection. *)
Theorem close_all_closes_but_keeps_pooled (h : Handles) (p : t) :
  (forall c, In c (connections p) -> is_closed c (close_all h p) = true)
  /\ (forall c, is_closed c h = true -> is_closed c (close_all h p) = true)
  /\ (forall rest conn, connections p = (rest ++ [conn])%list ->
        snd (get_connection (close_all h p) p) = conn
        /\ is_closed conn (close_all h p) = true).
Proof.
  split; [intros c; apply close_all_closes_idle |]. split.
  - intros c Hc. now apply close_all_keeps_closed.
  - intros rest conn Hp. split.
    + unfold get_connection. now rewrite Hp, list_pop_snoc.
    + apply close_all_closes_idle. rewrite Hp. apply in_or_app. right. now left.
Qed.

Lemma close_all_closes_but_keeps_pooled_witness :
  let p := mk "deepcode.db" 2 [mkConn 0 true; mkConn 1 true] in
  snd (get_connection (close_all (mkHandles 2 []) p) p) = mkConn 1 true
  /\ is_closed (mkConn 1 true) (close_all (mkHandles 2 []) p) = true.
Proof.
  intros p.
  destruct (close_all_closes_but_keeps_pooled (mkHandles 2 []) p) as (_ & _ & H).
  apply (H [mkConn 0 true] (mkConn 1 true)). reflexivity.
Defined.

End ConnectionPoolMore.

(** ** Query builder: placeholders and order of calls *)

Module QueryBuilderMore.
Import QueryBuilder BuilderCalls.

Lemma placeholders_app (a b : string) :
  placeholders (a ++ b) = (placeholders a + placeholders b)%nat.
Proof.
  induction a as [|c a IH]; simpl; [reflexivity | rewrite IH; lia].
Qed.

Lemma placeholders_join (sep : string) (parts : list string) :
  placeholders sep = O ->
  placeholders (str_join sep parts) = list_sum (map placeholders parts).
Proof.
  intros Hsep. induction parts as [|x [|y parts] IH]; simpl in *.
  - reflexivity.
  - lia.
  - rewrite !placeholders_app, Hsep, IH. lia.
Qed.

Lemma placeholders_join_clean (sep : string) (parts : list string) :
  placeholders sep = O ->
  Forall (fun f => placeholders f = O) parts ->
  placeholders (str_join sep parts) = O.
Proof.
  intros Hsep Hall. rewrite placeholders_join by exact Hsep.
  induction Hall as [|x parts Hx _ IH]; simpl; [reflexivity | lia].
Qed.

Lemma placeholders_str_of_int (n : Z) : placeholders (str_of_int n) = O.
Proof.
  assert (Hu : forall d, placeholders (NilEmpty.string_of_uint d) = O)
    by (induction d; simpl; auto).
  assert (Hz : forall d, placeholders (NilZero.string_of_uint d) = O)
    by (intros [| | | | | | | | | |]; try reflexivity; apply (Hu (_ _))).
  unfold str_of_int, NilZero.string_of_int.
  destruct (Z.to_int n); simpl; rewrite ?Hz; reflexivity.
Qed.

Lemma apply_aligned (qb : t) (c : call) :
  aligned qb -> balanced c -> aligned (apply qb c).
Proof.
  intros (Ht & Hs & Hj & Ho & Hw) Hc.
  destruct c as [fs|cond vs|tb on|tb on|f d|n|n]; simpl in Hc;
    unfold aligned; simpl;
    (split; [exact Ht |]); (split; [try exact Hs |]);
    try (split; [try exact Hj |]); try (split; [try exact Ho |]);
    try exact Hw; try exact Hc.
  - rewrite map_app, list_sum_app, length_app. simpl. lia.
  - destruct Hc as [Htb Hon].
    apply Forall_app. split; [exact Hj |]. constructor; [| constructor].
    repeat (progress (simpl; rewrite ?placeholders_app)). lia.
  - destruct Hc as [Htb Hon].
    apply Forall_app. split; [exact Hj |]. constructor; [| constructor].
    repeat (progress (simpl; rewrite ?placeholders_app)). lia.
  - destruct Hc as [Hf Hd]. intros s Heq. injection Heq as <-.
    repeat (progress (simpl; rewrite ?placeholders_app)). lia.
Qed.

Lemma chain_aligned (cs : list call) : forall qb,
  aligned qb -> Forall balanced cs -> aligned (chain cs qb).
Proof.
  unfold chain. induction cs as [|c cs IH]; intros qb Hqb Hcs; simpl; [exact Hqb |].
  inversion Hcs; subst. apply IH; [now apply apply_aligned | assumption].
Qed.

Lemma build_aligned (qb : t) :
  aligned qb ->
  placeholders (fst (build qb)) = List.length (snd (build qb)).
Proof.
  intros (Ht & Hs & Hj & Ho & Hw).
  pose proof (placeholders_join_clean ", " _ eq_refl Hs) as Hfields.
  pose proof (placeholders_join_clean " " _ eq_refl Hj) as Hjoins.
  pose proof (placeholders_join " AND " (where_clauses qb) eq_refl) as Hwhere.
  rewrite Hw in Hwhere.
  assert (Hnone : nonempty (where_clauses qb) = false ->
                  List.length (where_values qb) = O).
  { destruct (where_clauses qb); [intros _; now rewrite <- Hw | discriminate]. }
  unfold build. cbn [fst snd].
  generalize dependent (str_join ", " (select_fields qb)).
  generalize dependent (str_join " " (joins qb)).
  generalize dependent (str_join " AND " (where_clauses qb)).
  intros W HW J HJ F HF.
  destruct (nonempty (joins qb));
    destruct (nonempty (where_clauses qb));
    try specialize (Hnone eq_refl);
    destruct (order_by_clause qb) as [s|];
    try (pose proof (Ho s eq_refl); destruct (negb (s =? "")%string));
    destruct (limit_value qb) as [n|]; try destruct (negb (n =? 0));
    destruct (offset_value qb) as [k|]; try destruct (negb (k =? 0));
    repeat (progress (simpl; rewrite ?placeholders_app, ?placeholders_str_of_int));
    lia.
Qed.

(** X13.  When the table name and the text of every call other than
    [where()] are free of [?], and every [where()] passes one value per [?]
    of its fragment, the SQL text that [build()] returns has exactly as
    many placeholders as there are bound values. *)
Theorem build_placeholders_match_values (tbl : string) (cs : list call) :
  placeholders tbl = O ->
  Forall balanced cs ->
  placeholders (fst (build (chain cs (init tbl))))
  = List.length (snd (build (chain cs (init tbl)))).
Proof.
  intros Htbl Hcs. apply build_aligned, chain_aligned; [| exact Hcs].
  unfold aligned, init. simpl.
  split; [exact Htbl |].
  split; [constructor; [reflexivity | constructor] |].
  split; [constructor |].
  split; [discriminate | reflexivity].
Qed.

Lemma build_placeholders_match_values_witness :
  placeholders
    (fst (build (chain [Where "a = ? OR b = ?" [PInt 1; PInt 2];
                        OrderBy "a" "DESC"; Where "c LIKE ?" [PStr "x%"]; Limit 5]
                       (init "t"))))
  = 3%nat.
Proof.
  apply (build_placeholders_match_values "t"
           [Where "a = ? OR b = ?" [PInt 1; PInt 2];
            OrderBy "a" "DESC"; Where "c LIKE ?" [PStr "x%"]; Limit 5]).
  - reflexivity.
  - repeat constructor.
Defined.

Lemma apply_commutes (qb : t) (a b : call) :
  part_of a <> part_of b ->
  apply (apply qb a) b = apply (apply qb b) a.
Proof.
  destruct a, b; simpl; intros H; try reflexivity; congruence.
Qed.

(** X14.  Calls that write to different parts of the builder commute: two
    neighbouring calls of different kinds (say a [limit()] and a [where()])
    can be swapped anywhere in a chain without changing what [build()]
    returns.  Only the order of the [where()] calls among themselves, of
    the joins among themselves, and of repeated setters matters. *)
Theorem build_ignores_order_of_unrelated_calls
        (qb : t) (before after : list call) (a b : call) :
  part_of a <> part_of b ->
  build (chain (before ++ a :: b :: after) qb)
  = build (chain (before ++ b :: a :: after) qb).
Proof.
  intros Hab. unfold chain. rewrite !fold_left_app. simpl.
  now rewrite (apply_commutes _ a b Hab).
Qed.

Lemma build_ignores_order_of_unrelated_calls_witness :
  build (chain [Where "a = ?" [PInt 1]; Limit 5; Where "b = ?" [PInt 2]] (init "t"))
  = build (chain [Where "a = ?" [PInt 1]; Where "b = ?" [PInt 2]; Limit 5] (init "t")).
Proof.
  apply (build_ignores_order_of_unrelated_calls (init "t")
           [Where "a = ?" [PInt 1]] [] (Limit 5) (Where "b = ?" [PInt 2])).
  simpl; discriminate.
Defined.

End QueryBuilderMore.

(** ** Database and model: caching across calls, failures, closing *)

Module DatabaseMore.
Import Database DatabaseFacts Session.

Lemma with_cache_same {Store : Type} (s : state Store) :
  with_cache (cache (db s)) s = s.
Proof. destruct s as [st h [p c tb]]. reflexivity. Qed.

Lemma clear_cache_ok (c : QueryCache.t) : cache_ok c -> cache_ok (QueryCache.clear c).
Proof.
  intros (_ & Hpos & _).
  split; [apply QueryCacheFacts.clear_wf | split; [exact Hpos | constructor]].
Qed.

(** With an idle connection to take and room to give it back, an acquire
    and release leave the handles and the pool as they were. *)
Lemma released_same {Store : Type} (s : state Store) :
  ConnectionPool.connections (pool (db s)) <> [] ->
  ConnectionPool.idle (pool (db s)) <= ConnectionPool.pool_size (pool (db s)) ->
  released s = pool_view s.
Proof.
  intros Hne Hle. unfold released, pool_view.
  pose proof (ConnectionPoolMore.acquire_then_release (handles s) (pool (db s)) Hne Hle) as H.
  destruct (ConnectionPool.get_connection (handles s) (pool (db s))) as [[h p] conn].
  rewrite H. destruct (pool (db s)). reflexivity.
Qed.

Section WithBackend.
Context {R : Runtime} {Store : Type} {B : Backend Store}.
Implicit Types (s : state Store) (sql : string) (params : list pyval).

(** A read that the cache answers. *)
Lemma fetch_on_hit s sql params (t_get t_set : datetime) v :
  QueryCache.get (cache_key sql params) t_get (cache (db s)) = (cache (db s), Ok v) ->
  truthy v = true ->
  fetch_one sql params t_get t_set s = (s, Ok v)
  /\ fetch_all sql params t_get t_set s = (s, Ok v).
Proof.
  intros Hget Hv. unfold fetch_one, fetch_all, bind, cache_get.
  rewrite Hget, Hv. unfold ret. rewrite with_cache_same. split; reflexivity.
Qed.

(** A read that the cache does not answer, on an open connection: the
    store is the one the statement leaves, whatever happens afterwards. *)
Lemma fetch_store_on_miss s sql params (t_get t_set : datetime) c1 v :
  QueryCache.get (cache_key sql params) t_get (cache (db s)) = (c1, Ok v) ->
  truthy v = false ->
  is_closed (acquired s) (handles s) = false ->
  store (fst (fetch_one sql params t_get t_set s))
    = fst (cursor_execute (store s) sql params)
  /\ store (fst (fetch_all sql params t_get t_set s))
     = fst (cursor_execute (store s) sql params).
Proof.
  intros Hget Hv Hopen. unfold acquired, is_closed in Hopen.
  pose proof (get_connection_closed (handles s) (pool (db s))) as Hcl.
  unfold fetch_one, fetch_all, bind, cache_get. rewrite Hget, Hv.
  unfold try_finally, get_connection, return_connection, conn_execute,
    cache_set, lift, ret, bind, with_cache.
  simpl.
  destruct (ConnectionPool.get_connection (handles s) (pool (db s)))
    as [[h p] conn].
  simpl in *. unfold is_closed. rewrite Hcl, Hopen.
  destruct (cursor_execute (store s) sql params) as [st [rows|e]].
  - split; follow_paths; reflexivity.
  - split; follow_paths; reflexivity.
Qed.

(** The state after a read that missed, ran and converted. *)
Lemma fetch_one_on_miss s sql params (t_get t_set : datetime) c1 v st1 rows res :
  QueryCache.get (cache_key sql params) t_get (cache (db s)) = (c1, Ok v) ->
  truthy v = false ->
  is_closed (acquired s) (handles s) = false ->
  cursor_execute (store s) sql params = (st1, Ok rows) ->
  one_result (acquired s) (hd_error rows) = Ok res ->
  truthy res = true ->
  forall c2, QueryCache.set (cache_key sql params) res t_set c1 = (c2, Ok tt) ->
  fetch_one sql params t_get t_set s
  = (mkState st1 (fst (released s)) (mk (snd (released s)) c2 (tables (db s))),
     Ok res).
Proof.
  intros Hget Hv Hopen Hexec Hres Htr c2 Hset.
  unfold acquired, is_closed in *.
  pose proof (get_connection_closed (handles s) (pool (db s))) as Hcl.
  unfold fetch_one, bind, cache_get. rewrite Hget, Hv.
  unfold try_finally, get_connection, return_connection, conn_execute,
    cache_set, lift, ret, bind, released, with_cache.
  simpl.
  destruct (ConnectionPool.get_connection (handles s) (pool (db s)))
    as [[h p] conn].
  simpl in *. unfold is_closed. rewrite Hcl, Hopen, Hexec. simpl.
  rewrite Hres. simpl. rewrite Htr. simpl. rewrite Hset. simpl.
  destruct (ConnectionPool.return_connection conn h p). reflexivity.
Qed.

Lemma fetch_all_on_miss s sql params (t_get t_set : datetime) c1 v st1 rows r0 results :
  QueryCache.get (cache_key sql params) t_get (cache (db s)) = (c1, Ok v) ->
  truthy v = false ->
  is_closed (acquired s) (handles s) = false ->
  cursor_execute (store s) sql params = (st1, Ok rows) ->
  all_results (acquired s) rows = Ok (r0 :: results) ->
  forall c2,
    QueryCache.set (cache_key sql params) (PList (r0 :: results)) t_set c1 = (c2, Ok tt) ->
    fetch_all sql params t_get t_set s
    = (mkState st1 (fst (released s)) (mk (snd (released s)) c2 (tables (db s))),
       Ok (PList (r0 :: results))).
Proof.
  intros Hget Hv Hopen Hexec Hres c2 Hset.
  unfold acquired, is_closed in *.
  pose proof (get_connection_closed (handles s) (pool (db s))) as Hcl.
  unfold fetch_all, bind, cache_get. rewrite Hget, Hv.
  unfold try_finally, get_connection, return_connection, conn_execute,
    cache_set, lift, ret, bind, released, with_cache.
  simpl.
  destruct (ConnectionPool.get_connection (handles s) (pool (db s)))
    as [[h p] conn].
  simpl in *. unfold is_closed. rewrite Hcl, Hopen, Hexec. simpl.
  rewrite Hres. simpl. rewrite Hset. simpl.
  destruct (ConnectionPool.return_connection conn h p). reflexivity.
Qed.

(** A value just stored under a key is what a later [get] within the
    freshness window returns. *)
Lemma stored_then_hit (key : string) (value : pyval) (t_set now : datetime)
      (c c2 : QueryCache.t) :
  QueryCache.wf c -> 1 <= QueryCache.max_size c ->
  QueryCache.set key value t_set c = (c2, Ok tt) ->
  0 <= now - t_set < us_per_day ->
  (now - t_set) / us_per_second <= QueryCache.ttl c ->
  QueryCache.get key now c2 = (c2, Ok value).
Proof.
  intros Hwf Hpos Hset Hage Hfresh.
  destruct (QueryCacheMore.set_outcome key value t_set c Hwf Hpos)
    as (c' & Hset' & _ & _ & Httl & Hv & Hts & _).
  rewrite Hset in Hset'. injection Hset' as <-.
  unfold QueryCache.get. rewrite Hv, Hts, Httl.
  rewrite (QueryCacheFacts.timedelta_seconds_within_day _ _ Hage).
  destruct (Z.gtb_spec ((now - t_set) / us_per_second) (QueryCache.ttl c));
    [lia | reflexivity].
Qed.

(** X15.  A read that missed the cache and brought back a non-empty result
    is served from the cache afterwards: as long as the stored entry is
    fresh, a second read with the same statement and values returns the
    stored result and leaves the store, the pool and the cache untouched.
    The cache key does not record which method stored the entry, so
    [fetch_one] also returns the list that [fetch_all] stored, and
    [fetch_all] the single row that [fetch_one] stored. *)
Theorem repeated_read_is_served_from_cache
        s sql params (t_get t_set t_get2 t_set2 : datetime) c1 st1 rows :
  cache_ok (cache (db s)) ->
  QueryCache.get (cache_key sql params) t_get (cache (db s)) = (c1, Ok PNone) ->
  is_closed (acquired s) (handles s) = false ->
  cursor_execute (store s) sql params = (st1, Ok rows) ->
  0 <= t_get2 - t_set < us_per_day ->
  (t_get2 - t_set) / us_per_second <= QueryCache.ttl (cache (db s)) ->
  (forall res,
     one_result (acquired s) (hd_error rows) = Ok res ->
     truthy res = true ->
     let s' := fst (fetch_one sql params t_get t_set s) in
     fetch_one sql params t_get2 t_set2 s' = (s', Ok res)
     /\ fetch_all sql params t_get2 t_set2 s' = (s', Ok res))
  /\ (forall r0 results,
        all_results (acquired s) rows = Ok (r0 :: results) ->
        let s' := fst (fetch_all sql params t_get t_set s) in
        fetch_one sql params t_get2 t_set2 s' = (s', Ok (PList (r0 :: results)))
        /\ fetch_all sql params t_get2 t_set2 s' = (s', Ok (PList (r0 :: results)))).
Proof.
  intros Hok Hget Hopen Hexec Hage Hfresh.
  destruct (get_miss_ok _ _ _ _ Hok Hget) as [(Hwf1 & Hpos1 & _) _].
  assert (Httl : QueryCache.ttl c1 = QueryCache.ttl (cache (db s))).
  { destruct (QueryCacheMore.get_keeps_fields (cache_key sql params) t_get (cache (db s)))
      as (_ & Ht & _). now rewrite Hget in Ht. }
  rewrite <- Httl in Hfresh.
  split.
  - intros res Hres Htr s'.
    destruct (QueryCacheFacts.set_succeeds (cache_key sql params) res t_set c1 Hwf1 Hpos1)
      as (c2 & Hset & _).
    assert (Hs' : s' = mkState st1 (fst (released s))
                               (mk (snd (released s)) c2 (tables (db s)))).
    { unfold s'.
      now rewrite (fetch_one_on_miss s sql params t_get t_set c1 PNone st1 rows res
                     Hget eq_refl Hopen Hexec Hres Htr c2 Hset). }
    rewrite Hs'. apply fetch_on_hit; [| exact Htr]. simpl.
    exact (stored_then_hit _ _ _ _ _ _ Hwf1 Hpos1 Hset Hage Hfresh).
  - intros r0 results Hres s'.
    destruct (QueryCacheFacts.set_succeeds (cache_key sql params)
                (PList (r0 :: results)) t_set c1 Hwf1 Hpos1)
      as (c2 & Hset & _).
    assert (Hs' : s' = mkState st1 (fst (released s))
                               (mk (snd (released s)) c2 (tables (db s)))).
    { unfold s'.
      now rewrite (fetch_all_on_miss s sql params t_get t_set c1 PNone st1 rows
                     r0 results Hget eq_refl Hopen Hexec Hres c2 Hset). }
    rewrite Hs'. apply fetch_on_hit; [| reflexivity]. simpl.
    exact (stored_then_hit _ _ _ _ _ _ Hwf1 Hpos1 Hset Hage Hfresh).
Qed.

(** X16.  [execute] does not invalidate anything: after a statement run
    through [execute] directly, whether it succeeded or raised, a read
    whose key is cached and fresh still returns the cached value and does
    not reach the store. *)
Theorem read_after_execute_is_stale
        s sql params (t_get t_set : datetime) v sql' params' :
  QueryCache.get (cache_key sql params) t_get (cache (db s)) = (cache (db s), Ok v) ->
  truthy v = true ->
  let s1 := fst (execute sql' params' s) in
  fetch_one sql params t_get t_set s1 = (s1, Ok v)
  /\ fetch_all sql params t_get t_set s1 = (s1, Ok v).
Proof.
  intros Hget Hv s1. apply fetch_on_hit; [| exact Hv].
  unfold s1. rewrite execute_cache. exact Hget.
Qed.


(** X18.  After a [save()] or a [delete()] that returned [True], every read
    goes to the backend: whatever the statement, the values and the time,
    [fetch_one] and [fetch_all] run the statement on the store (on an open
    connection), since nothing is left in the cache to answer. *)
Theorem read_after_write_reaches_store
        s m s' sql params (t_get t_set : datetime) :
  Model.save m s = (s', Ok true) \/ Model.delete m s = (s', Ok true) ->
  is_closed (acquired s') (handles s') = false ->
  store (fst (fetch_one sql params t_get t_set s'))
    = fst (cursor_execute (store s') sql params)
  /\ store (fst (fetch_all sql params t_get t_set s'))
     = fst (cursor_execute (store s') sql params).
Proof.
  intros Hwrite Hopen.
  assert (Hempty : QueryCache.cache (cache (db s')) = []).
  { destruct Hwrite as [Hsave|Hdel].
    - unfold Model.save in Hsave. destruct (Model.save_statement m) as [q values].
      unfold bind, cache_clear, ret in Hsave.
      destruct (execute q values s) as [s1 [cur|e]]; [| discriminate].
      injection Hsave as <-. reflexivity.
    - unfold Model.delete in Hdel.
      destruct (dict_get "id" (Model.attributes m)) as [id|]; [| discriminate].
      unfold bind, cache_clear, ret in Hdel.
      destruct (execute _ _ s) as [s1 [cur|e]]; [| discriminate].
      injection Hdel as <-. reflexivity. }
  apply (fetch_store_on_miss s' sql params t_get t_set (cache (db s')) PNone);
    [| reflexivity | exact Hopen].
  unfold QueryCache.get. rewrite Hempty. reflexivity.
Qed.

(** A statement on a connection that is closed. *)
Lemma execute_on_closed s sql params :
  is_closed (acquired s) (handles s) = true ->
  execute sql params s
  = (mkState (store s) (fst (released s))
             (mk (snd (released s)) (cache (db s)) (tables (db s))),
     Raise ProgrammingError).
Proof.
  intros Hclosed. unfold acquired, is_closed in Hclosed.
  pose proof (get_connection_closed (handles s) (pool (db s))) as Hcl.
  unfold execute, bind, try_finally, get_connection, return_connection,
    conn_execute, commit, ret, released.
  destruct (ConnectionPool.get_connection (handles s) (pool (db s)))
    as [[h p] conn].
  simpl in *. unfold is_closed. rewrite Hcl, Hclosed. simpl.
  destruct (ConnectionPool.return_connection conn h p). reflexivity.
Qed.

Lemma fetch_on_closed s sql params (t_get t_set : datetime) c1 v :
  QueryCache.get (cache_key sql params) t_get (cache (db s)) = (c1, Ok v) ->
  truthy v = false ->
  is_closed (acquired s) (handles s) = true ->
  snd (fetch_one sql params t_get t_set s) = Raise ProgrammingError
  /\ snd (fetch_all sql params t_get t_set s) = Raise ProgrammingError
  /\ store (fst (fetch_one sql params t_get t_set s)) = store s
  /\ store (fst (fetch_all sql params t_get t_set s)) = store s.
Proof.
  intros Hget Hv Hclosed. unfold acquired, is_closed in Hclosed.
  pose proof (get_connection_closed (handles s) (pool (db s))) as Hcl.
  unfold fetch_one, fetch_all, bind, cache_get. rewrite Hget, Hv.
  unfold try_finally, get_connection, return_connection, conn_execute,
    cache_set, lift, ret, bind, with_cache.
  simpl.
  destruct (ConnectionPool.get_connection (handles s) (pool (db s)))
    as [[h p] conn].
  simpl in *. unfold is_closed. rewrite Hcl, Hclosed. simpl.
  destruct (ConnectionPool.return_connection conn h p). repeat split.
Qed.

(** X19.  [close()] closes the idle connections but leaves them in the
    pool, so a database that still had an idle connection is unusable
    afterwards: every [execute] raises [ProgrammingError] without reaching
    the store, and so does every read that the cache does not answer. *)
Theorem closed_database_refuses_statements s sql params :
  ConnectionPool.connections (pool (db s)) <> [] ->
  let s1 := fst (close s) in
  (exists s2, execute sql params s1 = (s2, Raise ProgrammingError)
              /\ store s2 = store s)
  /\ (forall (t_get t_set : datetime) c1 v,
        QueryCache.get (cache_key sql params) t_get (cache (db s)) = (c1, Ok v) ->
        truthy v = false ->
        snd (fetch_one sql params t_get t_set s1) = Raise ProgrammingError
        /\ snd (fetch_all sql params t_get t_set s1) = Raise ProgrammingError
        /\ store (fst (fetch_one sql params t_get t_set s1)) = store s
        /\ store (fst (fetch_all sql params t_get t_set s1)) = store s).
Proof.
  intros Hne s1.
  assert (Hclosed : is_closed (acquired s1) (handles s1) = true).
  { unfold s1, close, acquired. simpl.
    unfold ConnectionPool.get_connection.
    destruct (list_pop (ConnectionPool.connections (pool (db s))))
      as [[rest conn]|] eqn:E.
    - simpl. apply ConnectionPoolMore.close_all_closes_idle.
      apply list_pop_some in E. rewrite E. apply in_or_app. right. now left.
    - apply list_pop_none in E. contradiction. }
  split.
  - rewrite (execute_on_closed s1 sql params Hclosed).
    eexists. split; [reflexivity | reflexivity].
  - intros t_get t_set c1 v Hget Hv.
    exact (fetch_on_closed s1 sql params t_get t_set c1 v Hget Hv Hclosed).
Qed.

(** A write: the pool as after [execute], the cache emptied or as it
    was. *)
Lemma write_keeps_shape s sql params (A : Type) (a : A) :
  let s' := fst (bind (execute sql params)
                      (fun _ => bind cache_clear (fun _ => ret a)) s) in
  pool_view s' = released s
  /\ (cache_ok (cache (db s)) -> cache_ok (cache (db s'))).
Proof.
  pose proof (execute_pool_view s sql params) as Hp.
  pose proof (execute_cache s sql params) as Hc.
  unfold bind, cache_clear, ret.
  destruct (execute sql params s) as [s1 [cur|e]]; simpl in *.
  - split; [exact Hp |]. intros Hok. apply clear_cache_ok. now rewrite Hc.
  - split; [exact Hp |]. intros Hok. now rewrite Hc.
Qed.

Lemma step_keeps_shape s (c : call) :
  ConnectionPool.connections (pool (db s)) <> [] ->
  ConnectionPool.idle (pool (db s)) <= ConnectionPool.pool_size (pool (db s)) ->
  cache_ok (cache (db s)) ->
  pool_view (step s c) = pool_view s /\ cache_ok (cache (db (step s c))).
Proof.
  intros Hne Hle Hok. pose proof (released_same s Hne Hle) as Hrel.
  destruct c as [sql params|sql params t_get t_set|sql params t_get t_set
                 |table_name columns|m|m]; simpl.
  - rewrite execute_pool_view, execute_cache. split; assumption.
  - split; [| now apply fetch_one_cache_ok].
    rewrite fetch_one_pool_view. unfold after_read.
    destruct (QueryCache.get _ _ _) as [c1 [v|e]]; [| reflexivity].
    destruct (truthy v); [reflexivity | exact Hrel].
  - split; [| now apply fetch_all_cache_ok].
    rewrite fetch_all_pool_view. unfold after_read.
    destruct (QueryCache.get _ _ _) as [c1 [v|e]]; [| reflexivity].
    destruct (truthy v); [reflexivity | exact Hrel].
  - unfold create_table.
    pose proof (write_keeps_shape s (create_table_sql table_name columns) [] unit tt)
      as H.
    cbv zeta in H. unfold bind, cache_clear, ret in *.
    destruct (execute _ _ s) as [s1 [cur|e]]; simpl in *;
      (split; [rewrite <- Hrel; apply H | apply H; exact Hok]).
  - unfold Model.save. destruct (Model.save_statement m) as [q values].
    destruct (write_keeps_shape s q values bool true) as [Hp Hc].
    split; [now rewrite Hp | now apply Hc].
  - unfold Model.delete.
    destruct (dict_get "id" (Model.attributes m)) as [id|]; [| split; [reflexivity | exact Hok]].
    destruct (write_keeps_shape s ("DELETE FROM " ++ Model.tablename m ++ " WHERE id = ?")
                [id] bool true) as [Hp Hc].
    split; [now rewrite Hp | now apply Hc].
Qed.

(** X20.  A database that is used only through [execute], [fetch_one],
    [fetch_all], [create_table] and the [save()] and [delete()] of its
    models, in any order and whatever the backend answers, keeps the five
    connections it was created with idle in the pool in the same order:
    it opens no further connection and closes none.  Its cache stays well
    formed and holds truthy values only. *)
Theorem session_keeps_pool_and_cache_shape
        (cs : list call) (database : string) (st : Store) (h0 : Handles) :
  let s0 := init database st h0 in
  pool_view (run cs s0) = pool_view s0
  /\ ConnectionPool.idle (pool (db (run cs s0))) = 5
  /\ cache_ok (cache (db (run cs s0))).
Proof.
  intros s0.
  assert (Hpool0 : ConnectionPool.pool_size (pool (db s0)) = 5
                   /\ ConnectionPool.idle (pool (db s0)) = 5).
  { unfold s0, init.
    destruct (ConnectionPoolFacts.init_fields database 5 h0) as [Hs Hl].
    destruct (ConnectionPool.init database 5 h0). simpl in *.
    split; [exact Hs | rewrite Hl; reflexivity]. }
  destruct Hpool0 as [Hsize0 Hidle0].
  assert (Hinv : forall s,
             pool_view s = pool_view s0 -> cache_ok (cache (db s)) ->
             pool_view (run cs s) = pool_view s0 /\ cache_ok (cache (db (run cs s)))).
  { unfold run. induction cs as [|c cs IH]; intros s Hp Hok; simpl.
    - split; assumption.
    - assert (Hpool : pool (db s) = pool (db s0)).
      { unfold pool_view in Hp. now injection Hp. }
      destruct (step_keeps_shape s c) as [Hp' Hok'].
      + rewrite Hpool. unfold ConnectionPool.idle in Hidle0.
        destruct (ConnectionPool.connections (pool (db s0))); [simpl in Hidle0; lia | discriminate].
      + rewrite Hpool. lia.
      + exact Hok.
      + apply IH; [now rewrite Hp' | exact Hok']. }
  destruct (Hinv s0 eq_refl (init_cache_ok database st h0)) as [Hp Hok].
  split; [exact Hp |]. split; [| exact Hok].
  unfold pool_view in Hp. injection Hp as _ Hpool. now rewrite Hpool.
Qed.

End WithBackend.

(** A user row read twice within the hour: the second read, by either
    method, is the stored row and changes nothing. *)
Lemma repeated_read_is_served_from_cache_witness :
  let B := scripted (fun _ => Ok [[("id", PInt 1); ("name", PStr "A")]]) in
  let s0 := init "deepcode.db" [] (mkHandles 0 []) in
  let s' := fst (fetch_one (R := plain_runtime) (B := B)
                           "SELECT * FROM users WHERE id = ?" [PInt 1] 10 11 s0) in
  fetch_one (R := plain_runtime) (B := B)
            "SELECT * FROM users WHERE id = ?" [PInt 1] 60000000 60000001 s'
    = (s', Ok (PDict [("id", PInt 1); ("name", PStr "A")]))
  /\ fetch_all (R := plain_runtime) (B := B)
               "SELECT * FROM users WHERE id = ?" [PInt 1] 60000000 60000001 s'
     = (s', Ok (PDict [("id", PInt 1); ("name", PStr "A")])).
Proof.
  intros B s0.
  destruct (repeated_read_is_served_from_cache (R := plain_runtime) (B := B) s0
              "SELECT * FROM users WHERE id = ?" [PInt 1] 10 11 60000000 60000001
              (QueryCache.init 1000 3600)
              [("SELECT * FROM users WHERE id = ?", [PInt 1])]
              [[("id", PInt 1); ("name", PStr "A")]]) as [Hone _].
  - apply init_cache_ok.
  - reflexivity.
  - reflexivity.
  - reflexivity.
  - vm_compute; split; congruence.
  - vm_compute; congruence.
  - apply (Hone (PDict [("id", PInt 1); ("name", PStr "A")])); reflexivity.
Defined.

(** The cached list of users survives an UPDATE sent through [execute]. *)
Lemma read_after_execute_is_stale_witness :
  let B := scripted (fun _ => Ok []) in
  let s1 := fst (execute (B := B) "UPDATE users SET name = ?" [PStr "B"] one_cached) in
  fetch_all (R := plain_runtime) (B := B) "SELECT * FROM users" [] 1000000 1000001 s1
    = (s1, Ok (PList [PDict [("id", PInt 1)]])).
Proof.
  intros B.
  apply (read_after_execute_is_stale (R := plain_runtime) (B := B) one_cached
           "SELECT * FROM users" [] 1000000 1000001
           (PList [PDict [("id", PInt 1)]])
           "UPDATE users SET name = ?" [PStr "B"]); reflexivity.
Defined.


(** After saving a new user, the list of users is read from the store even
    though it had been cached. *)
Lemma read_after_write_reaches_store_witness :
  let B := scripted (fun _ => Ok []) in
  let m := Model.mk "users" [("name", PStr "A")] in
  let s' := fst (Model.save (B := B) m one_cached) in
  store (fst (fetch_all (R := plain_runtime) (B := B) "SELECT * FROM users" [] 5 6 s'))
  = [("INSERT INTO users (name) VALUES (?)", [PStr "A"]); ("SELECT * FROM users", [])].
Proof.
  intros B m s'.
  destruct (read_after_write_reaches_store (R := plain_runtime) (B := B)
              one_cached m s' "SELECT * FROM users" [] 5 6) as [_ Hall].
  - left. reflexivity.
  - reflexivity.
  - exact Hall.
Defined.

(** A fresh database, closed: the next statement is refused. *)
Lemma closed_database_refuses_statements_witness :
  let B := scripted (fun _ => Ok []) in
  let s0 := init "deepcode.db" [] (mkHandles 0 []) in
  exists s2,
    execute (B := B) "SELECT 1" [] (fst (close s0)) = (s2, Raise ProgrammingError)
    /\ store s2 = [].
Proof.
  intros B s0.
  pose proof (closed_database_refuses_statements (R := plain_runtime) (B := B)
                s0 "SELECT 1" []) as H.
  cbv zeta in H. destruct H as [Hexec _].
  - discriminate.
  - exact Hexec.
Defined.

End DatabaseMore.

(** ** Model: what is exposed and what is sent *)

Module ModelMore.
Import Model Session BuilderCalls.

(** X21.  [to_dict()] exposes exactly the attributes whose names do not
    start with an underscore, each with its value: looking a name up in the
    result gives nothing for an underscore name and the attribute's value
    for any other name. *)
Theorem to_dict_lookup (m : Model.t) (k : string) :
  dict_get k (to_dict m)
  = if startswith_underscore k then None else dict_get k (attributes m).
Proof.
  unfold to_dict, public_attrs.
  induction (attributes m) as [|[k' v'] d IH]; simpl.
  - now destruct (startswith_underscore k).
  - destruct (startswith_underscore k') eqn:Hk'; simpl.
    + rewrite IH. destruct (String.eqb_spec k k') as [->|Hne]; [| reflexivity].
      now rewrite Hk'.
    + rewrite IH. destruct (String.eqb_spec k k') as [->|Hne]; [| reflexivity].
      now rewrite Hk'.
Qed.

Lemma placeholders_marks {A : Type} (l : list A) :
  list_sum (map placeholders (map (fun _ => "?") l)) = List.length l.
Proof.
  induction l as [|x l IH]; simpl; [reflexivity | now rewrite IH].
Qed.

Lemma placeholders_assignments (ks : list string) :
  Forall (fun k => placeholders k = O) ks ->
  list_sum (map placeholders (map (fun k => k ++ " = ?") ks)) = List.length ks.
Proof.
  induction 1 as [|k ks Hk _ IH]; simpl; [reflexivity |].
  rewrite QueryBuilderMore.placeholders_app, Hk, IH. reflexivity.
Qed.

Lemma placeholders_clean_sum (ks : list string) :
  Forall (fun k => placeholders k = O) ks ->
  list_sum (map placeholders ks) = O.
Proof.
  induction 1 as [|k ks Hk _ IH]; simpl; [reflexivity | lia].
Qed.

(** X22.  When the table name and the attribute names are free of [?], the
    statement [save()] executes has exactly as many placeholders as bound
    values, for the UPDATE as for the INSERT. *)
Theorem save_placeholders_match_values (m : Model.t) :
  placeholders (tablename m) = O ->
  Forall (fun kv => placeholders (fst kv) = O) (attributes m) ->
  placeholders (fst (save_statement m)) = List.length (snd (save_statement m)).
Proof.
  intros Htn Hattrs.
  assert (Hpub : Forall (fun k => placeholders k = O) (dict_keys (public_attrs m))).
  { unfold dict_keys, public_attrs. rewrite Forall_forall in *.
    intros k Hk. apply in_map_iff in Hk as ([k' v] & <- & Hin).
    apply filter_In in Hin as [Hin _]. exact (Hattrs _ Hin). }
  assert (Hnonkey : Forall (fun k => placeholders k = O)
                           (map fst (filter not_id (public_attrs m)))).
  { rewrite Forall_forall in *. intros k Hk.
    apply in_map_iff in Hk as ([k' v] & <- & Hin).
    apply filter_In in Hin as [Hin _]. apply Hpub.
    unfold dict_keys. apply in_map_iff. now exists (k', v). }
  assert (Hinsert :
    placeholders ("INSERT INTO " ++ tablename m ++ " ("
                    ++ str_join ", " (dict_keys (public_attrs m)) ++ ") VALUES ("
                    ++ str_join ", " (map (fun _ => "?") (public_attrs m)) ++ ")")
    = List.length (dict_values (public_attrs m))).
  { pose proof (QueryBuilderMore.placeholders_join ", " (dict_keys (public_attrs m)) eq_refl) as Hk.
    rewrite (placeholders_clean_sum _ Hpub) in Hk.
    pose proof (QueryBuilderMore.placeholders_join ", "
                  (map (fun _ => "?") (public_attrs m)) eq_refl) as Hq.
    rewrite placeholders_marks in Hq.
    unfold dict_values. rewrite length_map.
    generalize dependent (str_join ", " (dict_keys (public_attrs m))).
    generalize dependent (str_join ", " (map (fun _ => "?") (public_attrs m))).
    intros Q HQ K HK.
    repeat (progress (simpl; rewrite ?QueryBuilderMore.placeholders_app)). lia. }
  unfold save_statement.
  destruct (dict_get "id" (attributes m)) as [id|]; [| exact Hinsert].
  destruct (truthy id); [| exact Hinsert].
  cbn [fst snd]. rewrite ModelFacts.filter_keys_not_id.
  pose proof (QueryBuilderMore.placeholders_join ", "
                (map (fun k => k ++ " = ?") (map fst (filter not_id (public_attrs m))))
                eq_refl) as Hset.
  rewrite (placeholders_assignments _ Hnonkey), length_map in Hset.
  rewrite length_app, length_map. simpl List.length.
  generalize dependent (str_join ", "
    (map (fun k => k ++ " = ?") (map fst (filter not_id (public_attrs m))))).
  intros S HS.
  repeat (progress (simpl; rewrite ?QueryBuilderMore.placeholders_app)). lia.
Qed.

Lemma save_placeholders_match_values_witness :
  placeholders (fst (save_statement
    (Model.mk "users" [("id", PInt 7); ("name", PStr "A"); ("email", PStr "a@x.com")])))
  = 3%nat.
Proof.
  apply (save_placeholders_match_values
           (Model.mk "users" [("id", PInt 7); ("name", PStr "A"); ("email", PStr "a@x.com")])).
  - reflexivity.
  - repeat constructor.
Defined.

(** X23.  With nothing to write, [save()] still sends a statement, one that
    lists no column: for an instance with no public attribute other than a
    truthy [id], an UPDATE with an empty SET clause; for an instance with no
    public attribute at all, an INSERT of no column and no value. *)
Theorem save_with_nothing_to_write (m : Model.t) :
  (forall id,
     dict_get "id" (attributes m) = Some id -> truthy id = true ->
     filter not_id (public_attrs m) = [] ->
     save_statement m = ("UPDATE " ++ tablename m ++ " SET  WHERE id = ?", [id]))
  /\ (public_attrs m = [] ->
      save_statement m = ("INSERT INTO " ++ tablename m ++ " () VALUES ()", [])).
Proof.
  split.
  - intros id Hid Htr Hnone. unfold save_statement.
    rewrite Hid, Htr, ModelFacts.filter_keys_not_id, Hnone. reflexivity.
  - intros Hnone. unfold save_statement.
    assert (Hid : dict_get "id" (attributes m) = None).
    { destruct (dict_get "id" (attributes m)) as [id|] eqn:E; [| reflexivity].
      apply dict_get_in in E.
      assert (Hin : In ("id", id) (public_attrs m))
        by (unfold public_attrs; apply filter_In; split; [exact E | reflexivity]).
      rewrite Hnone in Hin. destruct Hin. }
    rewrite Hid, Hnone. reflexivity.
Qed.

Lemma save_with_nothing_to_write_witness :
  save_statement (Model.mk "users" [("id", PInt 7); ("_seen", PBool true)])
    = ("UPDATE users SET  WHERE id = ?", [PInt 7])
  /\ save_statement (Model.mk "users" [("_seen", PBool true)])
     = ("INSERT INTO users () VALUES ()", []).
Proof.
  split.
  - destruct (save_with_nothing_to_write
                (Model.mk "users" [("id", PInt 7); ("_seen", PBool true)])) as [H _].
    apply (H (PInt 7)); reflexivity.
  - destruct (save_with_nothing_to_write
                (Model.mk "users" [("_seen", PBool true)])) as [_ H].
    apply H. reflexivity.
Defined.

End ModelMore.

(** ** Finders: one cache entry for two kinds of result *)

Module FindersMore.
Import Database DatabaseFacts DatabaseMore Finders.

Section WithBackend.
Context {R : Runtime} {Store : Type} {B : Backend Store}.
Implicit Types (s : state Store).

(** X24.  [all()] and [first()] without a condition send the same statement
    with the same (empty) values, so they share one cache entry.  Once
    [all()] has cached a non-empty list of rows, [first()] called while the
    entry is fresh gets that whole list from [fetch_one] where it expects a
    single row, and the store is not asked. *)
Theorem first_is_served_the_list_cached_by_all
        s (tablename : string) (t_get t_set t_get2 t_set2 : datetime)
        c1 st1 rows r0 results :
  cache_ok (cache (db s)) ->
  QueryCache.get (cache_key (fst (QueryBuilder.build (query tablename)))
                            (snd (QueryBuilder.build (query tablename))))
                 t_get (cache (db s)) = (c1, Ok PNone) ->
  is_closed (acquired s) (handles s) = false ->
  cursor_execute (store s) (fst (QueryBuilder.build (query tablename)))
                 (snd (QueryBuilder.build (query tablename))) = (st1, Ok rows) ->
  all_results (acquired s) rows = Ok (r0 :: results) ->
  0 <= t_get2 - t_set < us_per_day ->
  (t_get2 - t_set) / us_per_second <= QueryCache.ttl (cache (db s)) ->
  let s' := fst (all_rows tablename t_get t_set s) in
  snd (all_rows tablename t_get t_set s) = Ok (PList (r0 :: results))
  /\ first_row tablename None [] t_get2 t_set2 s' = (s', Ok (PList (r0 :: results)))
  /\ first_row tablename (Some "") [] t_get2 t_set2 s' = (s', Ok (PList (r0 :: results))).
Proof.
  intros Hok Hget Hopen Hexec Hres Hage Hfresh.
  set (sql := ("SELECT * FROM " ++ tablename)%string).
  set (params := @nil pyval).
  change (fst (QueryBuilder.build (query tablename))) with sql in *.
  change (snd (QueryBuilder.build (query tablename))) with params in *.
  change (all_rows tablename t_get t_set s) with (fetch_all sql params t_get t_set s).
  change (first_row tablename None [] t_get2 t_set2)
    with (fetch_one sql params t_get2 t_set2).
  change (first_row tablename (Some "") [] t_get2 t_set2)
    with (fetch_one sql params t_get2 t_set2).
  destruct (get_miss_ok _ _ _ _ Hok Hget) as [(Hwf1 & Hpos1 & _) _].
  assert (Httl : QueryCache.ttl c1 = QueryCache.ttl (cache (db s))).
  { destruct (QueryCacheMore.get_keeps_fields (cache_key sql params) t_get (cache (db s)))
      as (_ & Ht & _). now rewrite Hget in Ht. }
  rewrite <- Httl in Hfresh.
  destruct (QueryCacheFacts.set_succeeds (cache_key sql params)
              (PList (r0 :: results)) t_set c1 Hwf1 Hpos1) as (c2 & Hset & _).
  rewrite (fetch_all_on_miss s sql params t_get t_set c1 PNone st1 rows
             r0 results Hget eq_refl Hopen Hexec Hres c2 Hset).
  simpl. split; [reflexivity |].
  assert (Hhit : QueryCache.get (cache_key sql params) t_get2 c2
                 = (c2, Ok (PList (r0 :: results))))
    by exact (stored_then_hit _ _ _ _ _ _ Hwf1 Hpos1 Hset Hage Hfresh).
  split; apply fetch_on_hit; try reflexivity; exact Hhit.
Qed.

End WithBackend.

(** Two users are listed, then the first one is asked for: the answer is
    the list of both. *)
Lemma first_is_served_the_list_cached_by_all_witness :
  let B := scripted (fun _ => Ok [[("id", PInt 1)]; [("id", PInt 2)]]) in
  let s0 := init "deepcode.db" [] (mkHandles 0 []) in
  let s' := fst (all_rows (R := plain_runtime) (B := B) "users" 10 11 s0) in
  first_row (R := plain_runtime) (B := B) "users" None [] 1000000 1000001 s'
  = (s', Ok (PList [PDict [("id", PInt 1)]; PDict [("id", PInt 2)]])).
Proof.
  intros B s0.
  pose proof (first_is_served_the_list_cached_by_all
                (R := plain_runtime) (B := B) s0 "users" 10 11 1000000 1000001
                (QueryCache.init 1000 3600) [("SELECT * FROM users", [])]
                [[("id", PInt 1)]; [("id", PInt 2)]]
                (PDict [("id", PInt 1)]) [PDict [("id", PInt 2)]]) as H.
  cbv zeta in H. destruct H as (_ & Hfirst & _).
  - apply init_cache_ok.
  - reflexivity.
  - reflexivity.
  - reflexivity.
  - reflexivity.
  - vm_compute; split; congruence.
  - vm_compute; congruence.
  - exact Hfirst.
Defined.

End FindersMore.
